(** * Fashion-chatbot: the conversation client of [App.tsx] and [utils/api.ts]

    A shallow embedding of the chat front end's state logic: the axios
    wrapper [chatApi], the health probe [checkConnection] run on mount and
    the submit handler [handleSendMessage], together with the React state
    they update and the HTTP requests they issue.

    Asynchronous code is written in a small command monad [Task] whose
    commands are the effects the source performs (reading the clock, HTTP
    calls, [console.error], the four state setters).  An interpreter runs a
    task up to its first HTTP call, where it suspends; the continuation is
    kept in the world and resumed when the environment settles the request.
    The closure variables of a handler ([messages], [input], [isLoading]) are
    the state of the render that created it, passed as the argument [r]. *)

From Stdlib Require Import ZArith NArith String Ascii List Lia DecimalString.
From Stdlib Require DecimalPos DecimalZ.
From stdpp Require Import base list.
Import ListNotations.

Open Scope list_scope.

(** ** JavaScript strings *)

Module Js.

(** A JavaScript string is a sequence of UTF-16 code units. *)
Definition JsString : Type := list N.

(** A string literal of the source (all of them are ASCII). *)
Definition lit (s : string) : JsString :=
  List.map N_of_ascii (list_ascii_of_string s).

(** ECMAScript [WhiteSpace] and [LineTerminator] code points, the ones
    [String.prototype.trim] strips: TAB, LF, VT, FF, CR, SP, NBSP, U+1680,
    U+2000..U+200A, LS, PS, U+202F, U+205F, U+3000 and U+FEFF. *)
Definition isWhiteSpace (c : N) : bool :=
  existsb (N.eqb c)
    [9; 10; 11; 12; 13; 32; 160; 5760; 8232; 8233; 8239; 8287; 12288; 65279]%N
  || ((8192 <=? c)%N && (c <=? 8202)%N).

Fixpoint trimStart (s : JsString) : JsString :=
  match s with
  | [] => []
  | c :: s' => if isWhiteSpace c then trimStart s' else s
  end.

Definition trimEnd (s : JsString) : JsString :=
  List.rev (trimStart (List.rev s)).

(** [s.trim()] *)
Definition trim (s : JsString) : JsString := trimEnd (trimStart s).

(** [ToBoolean] on a string: only the empty string is falsy. *)
Definition truthy (s : JsString) : bool :=
  match s with [] => false | _ :: _ => true end.

(** [s.startsWith(p)] *)
Fixpoint startsWith (s p : JsString) : bool :=
  match p, s with
  | [], _ => true
  | _ :: _, [] => false
  | a :: p', b :: s' => N.eqb a b && startsWith s' p'
  end.

(** [n.toString()] for an integral number (a [Date.now()] reading is one,
    and far below the 1e21 where JavaScript switches to exponents). *)
Definition toString (n : Z) : JsString :=
  lit (NilZero.string_of_int (Z.to_int n)).

End Js.
Import Js.

(** ** utils/api.ts: wire types *)

Inductive Role : Type := user | assistant.

Definition Role_eqb (a b : Role) : bool :=
  match a, b with
  | user, user | assistant, assistant => true
  | _, _ => false
  end.

Module Api.

Record Message : Type := { role : Role; content : JsString }.

Record ChatRequest : Type :=
  { message : JsString; conversation_history : list Message }.

(** [metadata?: Record<string, any>]; the client never reads it. *)
Inductive JsAny : Type :=
| JNull
| JBool (b : bool)
| JNumber (z : Z)
| JString (s : JsString).

Record ChatResponse : Type :=
  { response : JsString; metadata : option (list (JsString * JsAny)) }.

(** The body of [GET /health]. *)
Record Health : Type := { status : JsString }.

(** What axios rejects with: no response at all, or a response whose
    status is outside 2xx. *)
Inductive AxiosError : Type :=
| NetworkError
| BadStatus (code : Z).

(** How the promise of an axios call settles. *)
Inductive Settled (A : Type) : Type :=
| Resolved (data : A)
| Rejected (err : AxiosError).
Arguments Resolved {A} data.
Arguments Rejected {A} err.

End Api.
Import Api.

(** ** App.tsx: the client's state *)

(** [type ChatMessage = Message & { id: string; timestamp: Date }]; a [Date]
    is its time value in milliseconds. *)
Record ChatMessage : Type :=
  { id : JsString; msg_role : Role; msg_content : JsString; timestamp : Z }.

(** The four [useState] cells of [App]. *)
Record State : Type :=
  { messages : list ChatMessage;
    input : JsString;
    isLoading : bool;
    isConnected : bool }.

(** The argument of a React state setter: a value, or an updater applied to
    the state current when the update is processed. *)
Inductive SetStateAction (S : Type) : Type :=
| Value (v : S)
| Updater (f : S -> S).
Arguments Value {S} v.
Arguments Updater {S} f.

Definition applyAction {S : Type} (a : SetStateAction S) (cur : S) : S :=
  match a with
  | Value v => v
  | Updater f => f cur
  end.

(** ** Asynchronous code as tasks *)

Inductive Task (A : Type) : Type :=
| Ret (a : A)
| Throw (err : AxiosError)
| PreventDefault (k : Task A)
| DateNow (k : Z -> Task A)
| AxiosGet (url : JsString) (k : Settled Health -> Task A)
| AxiosPost (url : JsString) (body : ChatRequest)
            (k : Settled ChatResponse -> Task A)
| ConsoleError (label : JsString) (err : AxiosError) (k : Task A)
| SetMessages (a : SetStateAction (list ChatMessage)) (k : Task A)
| SetInput (v : JsString) (k : Task A)
| SetIsLoading (b : bool) (k : Task A)
| SetIsConnected (b : bool) (k : Task A).
Arguments Ret {A} a.
Arguments Throw {A} err.
Arguments PreventDefault {A} k.
Arguments DateNow {A} k.
Arguments AxiosGet {A} url k.
Arguments AxiosPost {A} url body k.
Arguments ConsoleError {A} label err k.
Arguments SetMessages {A} a k.
Arguments SetInput {A} v k.
Arguments SetIsLoading {A} b k.
Arguments SetIsConnected {A} b k.

(** Continue [t] with [on_ret] when it returns and with [on_throw] when it
    throws; sequencing, [try/catch] and [finally] are instances. *)
Fixpoint handle {A B : Type} (t : Task A)
    (on_ret : A -> Task B) (on_throw : AxiosError -> Task B) : Task B :=
  match t with
  | Ret a => on_ret a
  | Throw e => on_throw e
  | PreventDefault k => PreventDefault (handle k on_ret on_throw)
  | DateNow k => DateNow (fun z => handle (k z) on_ret on_throw)
  | AxiosGet url k => AxiosGet url (fun r => handle (k r) on_ret on_throw)
  | AxiosPost url body k =>
      AxiosPost url body (fun r => handle (k r) on_ret on_throw)
  | ConsoleError l e k => ConsoleError l e (handle k on_ret on_throw)
  | SetMessages a k => SetMessages a (handle k on_ret on_throw)
  | SetInput v k => SetInput v (handle k on_ret on_throw)
  | SetIsLoading b k => SetIsLoading b (handle k on_ret on_throw)
  | SetIsConnected b k => SetIsConnected b (handle k on_ret on_throw)
  end.

Definition bind {A B : Type} (t : Task A) (f : A -> Task B) : Task B :=
  handle t f Throw.

(** [try { t } catch (error) { h error }] *)
Definition try_catch {A : Type} (t : Task A) (h : AxiosError -> Task A)
  : Task A :=
  handle t Ret h.

(** [try { t } finally { f }] *)
Definition try_finally {A : Type} (t : Task A) (f : Task unit) : Task A :=
  handle t (fun a => bind f (fun _ => Ret a)) (fun e => bind f (fun _ => Throw e)).

Declare Scope task_scope.
Delimit Scope task_scope with task.
Notation "x <- t ;; k" := (bind t (fun x => k))
  (at level 100, t at next level, right associativity) : task_scope.
Notation "t ;;; k" := (bind t (fun _ => k))
  (at level 100, right associativity) : task_scope.
Open Scope task_scope.

Definition dateNow : Task Z := DateNow Ret.
Definition preventDefault : Task unit := PreventDefault (Ret tt).
Definition consoleError (l : JsString) (e : AxiosError) : Task unit :=
  ConsoleError l e (Ret tt).
Definition setMessages (a : SetStateAction (list ChatMessage)) : Task unit :=
  SetMessages a (Ret tt).
Definition setInput (v : JsString) : Task unit := SetInput v (Ret tt).
Definition setIsLoading (b : bool) : Task unit := SetIsLoading b (Ret tt).
Definition setIsConnected (b : bool) : Task unit := SetIsConnected b (Ret tt).

(** [await api.get(url)] and [await api.post(url, body)]: a rejected promise
    throws at the [await]. *)
Definition apiGet (url : JsString) : Task Health :=
  AxiosGet url (fun r =>
    match r with Resolved d => Ret d | Rejected e => Throw e end).

Definition apiPost (url : JsString) (body : ChatRequest) : Task ChatResponse :=
  AxiosPost url body (fun r =>
    match r with Resolved d => Ret d | Rejected e => Throw e end).

(** ** utils/api.ts: [chatApi] *)

Module chatApi.

Definition sendMessage (message : JsString)
    (conversationHistory : list Message) : Task ChatResponse :=
  try_catch
    (apiPost (lit "/chat")
       {| Api.message := message;
          conversation_history := conversationHistory |})
    (fun error =>
       consoleError (lit "Error sending message:") error ;;;
       Throw error).

Definition getHealth : Task Health :=
  try_catch
    (apiGet (lit "/health"))
    (fun error =>
       consoleError (lit "Error checking API health:") error ;;;
       Throw error).

End chatApi.

(** ** App.tsx: the two operations *)

Definition welcomeText : JsString :=
  lit "Hello! I'm your fashion assistant. How can I help you with your style today?".

Definition troubleText : JsString :=
  lit "I'm having trouble connecting to the fashion assistant service. Some features may be limited.".

Definition troublePrefix : JsString := lit "I'm having trouble".

Definition requestErrorText : JsString :=
  lit "Sorry, I encountered an error while processing your request. Please try again.".

(** The effect run once on mount. *)
Definition checkConnection : Task unit :=
  try_catch
    (_ <- chatApi.getHealth ;;
     setIsConnected true ;;;
     t <- dateNow ;;
     setMessages (Value
       [ {| id := lit "welcome";
            msg_role := assistant;
            msg_content := welcomeText;
            timestamp := t |} ]))
    (fun error =>
       consoleError (lit "Failed to connect to API:") error ;;;
       t <- dateNow ;;
       setMessages (Value
         [ {| id := lit "error";
              msg_role := assistant;
              msg_content := troubleText;
              timestamp := t |} ])).

(** The predicate of the history filter:
    [msg.role !== 'assistant' || !msg.content.startsWith('I\'m having trouble')] *)
Definition keepInHistory (msg : ChatMessage) : bool :=
  negb (Role_eqb (msg_role msg) assistant)
  || negb (startsWith (msg_content msg) troublePrefix).

(** [({ role, content }) => ({ role, content })] *)
Definition toMessage (msg : ChatMessage) : Message :=
  {| role := msg_role msg; content := msg_content msg |}.

(** [messages.filter(...).map(...)] *)
Definition conversationHistoryOf (msgs : list ChatMessage) : list Message :=
  List.map toMessage (List.filter keepInHistory msgs).

(** The guard at the entry of [handleSendMessage], negated:
    not ([!input.trim() || isLoading]). *)
Definition accepts (r : State) : bool :=
  negb (negb (truthy (trim (input r))) || isLoading r).

(** The submit handler created by the render whose state is [r]. *)
Definition handleSendMessage (r : State) : Task unit :=
  preventDefault ;;;
  if negb (truthy (trim (input r))) || isLoading r then Ret tt
  else
    t_id <- dateNow ;;
    t_ts <- dateNow ;;
    let userMessage :=
      {| id := toString t_id;
         msg_content := input r;
         msg_role := user;
         timestamp := t_ts |} in
    setMessages (Updater (fun prev => prev ++ [userMessage])) ;;;
    setInput (lit "") ;;;
    setIsLoading true ;;;
    try_finally
      (try_catch
         (let conversationHistory := conversationHistoryOf (messages r) in
          response <- chatApi.sendMessage (input r) conversationHistory ;;
          t_id' <- dateNow ;;
          t_ts' <- dateNow ;;
          let botMessage :=
            {| id := lit "msg-" ++ toString t_id';
               msg_content := Api.response response;
               msg_role := assistant;
               timestamp := t_ts' |} in
          setMessages (Updater (fun prev => prev ++ [botMessage])))
         (fun error =>
            consoleError (lit "Error sending message:") error ;;;
            t_id' <- dateNow ;;
            t_ts' <- dateNow ;;
            let errorMessage :=
              {| id := lit "error-" ++ toString t_id';
                 msg_content := requestErrorText;
                 msg_role := assistant;
                 timestamp := t_ts' |} in
            setMessages (Updater (fun prev => prev ++ [errorMessage]))))
      (setIsLoading false).

(** ** The world a task runs in *)

Inductive HttpRequest : Type :=
| GET (url : JsString)
| POST (url : JsString) (body : ChatRequest).

(** The React state, the environment's clock (its successive readings and
    how many were taken), what the client has emitted so far (requests,
    console lines, [preventDefault] calls, exceptions no handler caught) and
    the continuations suspended at an HTTP call, oldest first. *)
Record World : Type :=
  { ui : State;
    clock : nat -> Z;
    reads : nat;
    requests : list HttpRequest;
    console : list (JsString * AxiosError);
    prevented : nat;
    unhandled : list AxiosError;
    pendingGet : list (Settled Health -> Task unit);
    pendingPost : list (Settled ChatResponse -> Task unit) }.

Definition with_ui (w : World) (s : State) : World :=
  {| ui := s; clock := clock w; reads := reads w; requests := requests w;
     console := console w; prevented := prevented w;
     unhandled := unhandled w;
     pendingGet := pendingGet w; pendingPost := pendingPost w |}.

Definition with_reads (w : World) (n : nat) : World :=
  {| ui := ui w; clock := clock w; reads := n; requests := requests w;
     console := console w; prevented := prevented w;
     unhandled := unhandled w;
     pendingGet := pendingGet w; pendingPost := pendingPost w |}.

Definition with_requests (w : World) (l : list HttpRequest) : World :=
  {| ui := ui w; clock := clock w; reads := reads w; requests := l;
     console := console w; prevented := prevented w;
     unhandled := unhandled w;
     pendingGet := pendingGet w; pendingPost := pendingPost w |}.

Definition with_console (w : World) (l : list (JsString * AxiosError)) : World :=
  {| ui := ui w; clock := clock w; reads := reads w; requests := requests w;
     console := l; prevented := prevented w;
     unhandled := unhandled w;
     pendingGet := pendingGet w; pendingPost := pendingPost w |}.

Definition with_prevented (w : World) (n : nat) : World :=
  {| ui := ui w; clock := clock w; reads := reads w; requests := requests w;
     console := console w; prevented := n;
     unhandled := unhandled w;
     pendingGet := pendingGet w; pendingPost := pendingPost w |}.

Definition with_unhandled (w : World) (l : list AxiosError) : World :=
  {| ui := ui w; clock := clock w; reads := reads w; requests := requests w;
     console := console w; prevented := prevented w;
     unhandled := l;
     pendingGet := pendingGet w; pendingPost := pendingPost w |}.

Definition with_pendingGet (w : World)
    (l : list (Settled Health -> Task unit)) : World :=
  {| ui := ui w; clock := clock w; reads := reads w; requests := requests w;
     console := console w; prevented := prevented w;
     unhandled := unhandled w;
     pendingGet := l; pendingPost := pendingPost w |}.

Definition with_pendingPost (w : World)
    (l : list (Settled ChatResponse -> Task unit)) : World :=
  {| ui := ui w; clock := clock w; reads := reads w; requests := requests w;
     console := console w; prevented := prevented w;
     unhandled := unhandled w;
     pendingGet := pendingGet w; pendingPost := l |}.

Definition set_messages (s : State) (l : list ChatMessage) : State :=
  {| messages := l; input := input s;
     isLoading := isLoading s; isConnected := isConnected s |}.

Definition set_input (s : State) (v : JsString) : State :=
  {| messages := messages s; input := v;
     isLoading := isLoading s; isConnected := isConnected s |}.

Definition set_isLoading (s : State) (b : bool) : State :=
  {| messages := messages s; input := input s;
     isLoading := b; isConnected := isConnected s |}.

Definition set_isConnected (s : State) (b : bool) : State :=
  {| messages := messages s; input := input s;
     isLoading := isLoading s; isConnected := b |}.

(** How a task leaves the interpreter: finished, thrown out of, or suspended
    at an HTTP call with the rest of the task as continuation. *)
Inductive Outcome (A : Type) : Type :=
| Done (a : A)
| Thrown (err : AxiosError)
| AwaitGet (k : Settled Health -> Task A)
| AwaitPost (k : Settled ChatResponse -> Task A).
Arguments Done {A} a.
Arguments Thrown {A} err.
Arguments AwaitGet {A} k.
Arguments AwaitPost {A} k.

(** Run the synchronous stretch of [t].  State updates are applied in the
    order they are queued; an updater sees the state current at that point.
    An HTTP call is recorded as issued and suspends the task. *)
Fixpoint exec {A : Type} (t : Task A) (w : World) : Outcome A * World :=
  match t with
  | Ret a => (Done a, w)
  | Throw e => (Thrown e, w)
  | PreventDefault k => exec k (with_prevented w (S (prevented w)))
  | DateNow k => exec (k (clock w (reads w))) (with_reads w (S (reads w)))
  | AxiosGet url k => (AwaitGet k, with_requests w (requests w ++ [GET url]))
  | AxiosPost url body k =>
      (AwaitPost k, with_requests w (requests w ++ [POST url body]))
  | ConsoleError l e k => exec k (with_console w (console w ++ [(l, e)]))
  | SetMessages a k =>
      exec k (with_ui w (set_messages (ui w) (applyAction a (messages (ui w)))))
  | SetInput v k => exec k (with_ui w (set_input (ui w) v))
  | SetIsLoading b k => exec k (with_ui w (set_isLoading (ui w) b))
  | SetIsConnected b k => exec k (with_ui w (set_isConnected (ui w) b))
  end.

(** Start or resume a task nobody awaits: when it suspends its continuation
    joins the pending ones, when it throws the exception is unhandled. *)
Definition launch (t : Task unit) (w : World) : World :=
  match exec t w with
  | (Done _, w') => w'
  | (Thrown e, w') => with_unhandled w' (unhandled w' ++ [e])
  | (AwaitGet k, w') => with_pendingGet w' (pendingGet w' ++ [k])
  | (AwaitPost k, w') => with_pendingPost w' (pendingPost w' ++ [k])
  end.

(** ** A session *)

(** [useState] initial values. *)
Definition initialState : State :=
  {| messages := []; input := lit ""; isLoading := false; isConnected := false |}.

Definition initialWorld (clk : nat -> Z) : World :=
  {| ui := initialState; clock := clk; reads := 0; requests := [];
     console := []; prevented := 0; unhandled := [];
     pendingGet := []; pendingPost := [] |}.

(** The first render followed by the mount effect
    [useEffect(() => { ...; checkConnection(); }, [])], which runs once. *)
Definition mount (clk : nat -> Z) : World :=
  launch checkConnection (initialWorld clk).

(** What can happen after mount: the user edits the input box ([onChange];
    the box is [disabled] while [isLoading]), the form is submitted, the
    environment settles the oldest pending [GET] or [POST]. *)
Inductive Event : Type :=
| Change (value : JsString)
| Submit
| HealthSettles (r : Settled Health)
| ChatSettles (r : Settled ChatResponse).

Definition step (ev : Event) (w : World) : World :=
  match ev with
  | Change value =>
      if isLoading (ui w) then w
      else launch (setInput value) w
  | Submit => launch (handleSendMessage (ui w)) w
  | HealthSettles r =>
      match pendingGet w with
      | [] => w
      | k :: rest => launch (k r) (with_pendingGet w rest)
      end
  | ChatSettles r =>
      match pendingPost w with
      | [] => w
      | k :: rest => launch (k r) (with_pendingPost w rest)
      end
  end.

Definition run (evs : list Event) (w : World) : World :=
  fold_left (fun w ev => step ev w) evs w.

(** The transcript shown to the user. *)
Definition transcript (w : World) : list ChatMessage := messages (ui w).

(** The body of the last [POST] issued, if any. *)
Definition lastPost (w : World) : option ChatRequest :=
  match List.rev (requests w) with
  | POST _ body :: _ => Some body
  | _ => None
  end.

(** ** What the two continuations do when resumed *)

Arguments lit : simpl never.
Arguments toString : simpl never.
Arguments conversationHistoryOf : simpl never.
Arguments trim : simpl never.

(** The user message built by a submit handled in world [w]. *)
Definition userMessageAt (w : World) : ChatMessage :=
  {| id := toString (clock w (reads w));
     msg_role := user;
     msg_content := input (ui w);
     timestamp := clock w (S (reads w)) |}.

(** The request issued by a submit handled in world [w]. *)
Definition requestAt (w : World) : ChatRequest :=
  {| message := input (ui w);
     conversation_history := conversationHistoryOf (transcript w) |}.

(** The assistant message built when the [POST] settles with [res] in world
    [w]: the reply, or the fixed request-error text. *)
Definition assistantMessageAt (res : Settled ChatResponse) (w : World)
  : ChatMessage :=
  match res with
  | Resolved d =>
      {| id := lit "msg-" ++ toString (clock w (reads w));
         msg_role := assistant;
         msg_content := response d;
         timestamp := clock w (S (reads w)) |}
  | Rejected _ =>
      {| id := lit "error-" ++ toString (clock w (reads w));
         msg_role := assistant;
         msg_content := requestErrorText;
         timestamp := clock w (S (reads w)) |}
  end.

Definition sendLog (res : Settled ChatResponse)
  : list (JsString * AxiosError) :=
  match res with
  | Resolved _ => []
  | Rejected e =>
      [(lit "Error sending message:", e); (lit "Error sending message:", e)]
  end.

(** Console lines are appended one [console.error] call at a time. *)
Definition logged (l entries : list (JsString * AxiosError))
  : list (JsString * AxiosError) :=
  fold_left (fun acc x => acc ++ [x]) entries l.

(** The world after the suspended half of [handleSendMessage] has run in [w]. *)
Definition afterSend (res : Settled ChatResponse) (w : World) : World :=
  {| ui := {| messages := transcript w ++ [assistantMessageAt res w];
              input := input (ui w);
              isLoading := false;
              isConnected := isConnected (ui w) |};
     clock := clock w; reads := S (S (reads w)); requests := requests w;
     console := logged (console w) (sendLog res); prevented := prevented w;
     unhandled := unhandled w;
     pendingGet := pendingGet w; pendingPost := pendingPost w |}.

(** The message [checkConnection] seeds the transcript with. *)
Definition seedMessageAt (res : Settled Health) (w : World) : ChatMessage :=
  match res with
  | Resolved _ =>
      {| id := lit "welcome"; msg_role := assistant;
         msg_content := welcomeText; timestamp := clock w (reads w) |}
  | Rejected _ =>
      {| id := lit "error"; msg_role := assistant;
         msg_content := troubleText; timestamp := clock w (reads w) |}
  end.

Definition probeLog (res : Settled Health) : list (JsString * AxiosError) :=
  match res with
  | Resolved _ => []
  | Rejected e =>
      [(lit "Error checking API health:", e);
       (lit "Failed to connect to API:", e)]
  end.

(** The world after the suspended half of [checkConnection] has run in [w]. *)
Definition afterProbe (res : Settled Health) (w : World) : World :=
  {| ui := {| messages := [seedMessageAt res w];
              input := input (ui w);
              isLoading := isLoading (ui w);
              isConnected :=
                match res with
                | Resolved _ => true
                | Rejected _ => isConnected (ui w)
                end |};
     clock := clock w; reads := S (reads w); requests := requests w;
     console := logged (console w) (probeLog res); prevented := prevented w;
     unhandled := unhandled w;
     pendingGet := pendingGet w; pendingPost := pendingPost w |}.

Definition isSendCont (k : Settled ChatResponse -> Task unit) : Prop :=
  forall res w, exec (k res) w = (Done tt, afterSend res w).

Definition isProbeCont (k : Settled Health -> Task unit) : Prop :=
  forall res w, exec (k res) w = (Done tt, afterProbe res w).

(** ** Invariants of a session *)

Definition isGet (q : HttpRequest) : bool :=
  match q with GET _ => true | POST _ _ => false end.

(** Every suspended continuation is the second half of one of the two
    operations; a [POST] is pending exactly while [isLoading] is set; the
    only [GET] ever issued is the one of the mount effect; no exception has
    escaped. *)
Record Inv (w : World) : Prop :=
  { inv_post : Forall isSendCont (pendingPost w);
    inv_get : Forall isProbeCont (pendingGet w);
    inv_loading :
      length (pendingPost w) = if isLoading (ui w) then 1 else 0;
    inv_get_len : length (pendingGet w) <= 1;
    inv_probes : List.filter isGet (requests w) = [GET (lit "/health")];
    inv_unhandled : unhandled w = [] }.

(** The worlds a session can be in. *)
Definition reachable (w : World) : Prop :=
  exists clk evs, w = run evs (mount clk).

(** ** Vocabulary of the properties *)

(** Empty, or made of white space only. *)
Definition whitespaceOnly (s : JsString) : bool := forallb isWhiteSpace s.

Definition notChatSettles (ev : Event) : bool :=
  match ev with ChatSettles _ => false | _ => true end.

(** A message the history filter drops: written by the assistant and
    starting with the fixed prefix of the connectivity notice. *)
Definition isConnectivityNotice (msg : ChatMessage) : bool :=
  Role_eqb (msg_role msg) assistant
  && startsWith (msg_content msg) troublePrefix.

(** The same world with the connectivity flag set to [b]. *)
Definition with_isConnected (w : World) (b : bool) : World :=
  with_ui w (set_isConnected (ui w) b).

(** What [sendMessage] and its callers can observe of a world: everything
    but the connectivity flag. *)
Definition sendView (w : World) :=
  (transcript w, input (ui w), isLoading (ui w), requests w, console w,
   reads w, unhandled w).

(** ** A sample session *)

Definition sampleClock : nat -> Z :=
  fun n => (1700000000000 + Z.of_nat n)%Z.

Definition sampleHealth : Health := {| status := lit "healthy" |}.

Definition sampleReply : ChatResponse :=
  {| response := lit "Try grey or white."; metadata := None |}.

(** The probe has succeeded and the user has typed a question. *)
Definition sampleIdle : World :=
  run [HealthSettles (Resolved sampleHealth);
       Change (lit "What goes with navy blue?")]
      (mount sampleClock).

(** The question has been submitted and is in flight. *)
Definition sampleInFlight : World := step Submit sampleIdle.

(** The user has typed text with white space around it. *)
Definition sampleSpaced : World :=
  run [HealthSettles (Resolved sampleHealth);
       Change (lit "  navy or black?  ")]
      (mount sampleClock).

(** The user's first message began with the words of the connectivity
    notice; it was answered and a second message has been typed. *)
Definition sampleTrouble : World :=
  run [HealthSettles (Resolved sampleHealth);
       Change (lit "I'm having trouble choosing shoes");
       Submit;
       ChatSettles (Resolved sampleReply);
       Change (lit "Thanks")]
      (mount sampleClock).

(** The probe failed at startup; the user has typed a question. *)
Definition sampleOffline : World :=
  run [HealthSettles (Rejected NetworkError);
       Change (lit "What goes with navy blue?")]
      (mount sampleClock).

(** A send accepted and answered while the startup probe was still pending. *)
Definition sampleEarlySend : World :=
  run [Change (lit "What goes with navy blue?");
       Submit;
       ChatSettles (Resolved sampleReply)]
      (mount sampleClock).

Definition isHealthSettles (ev : Event) : bool :=
  match ev with HealthSettles _ => true | _ => false end.

(** Does running [evs] from [w] resume a pending [checkConnection]? *)
Definition probeSettlesIn (w : World) (evs : list Event) : bool :=
  match pendingGet w with
  | [] => false
  | _ :: _ => existsb isHealthSettles evs
  end.

(** A send made while the startup probe was pending has failed. *)
Definition sampleFailedEarly : World :=
  run [Change (lit "What goes with navy blue?");
       Submit;
       ChatSettles (Rejected (BadStatus 500))]
      (mount sampleClock).

(** The probe has then succeeded and the user has typed a second question. *)
Definition sampleAfterOverwrite : World :=
  run [HealthSettles (Resolved sampleHealth);
       Change (lit "And with brown?")]
      sampleFailedEarly.

(** ** App.tsx: what a render shows *)

(** [s.split(sep)] for a separator of one code unit: the pieces between
    the occurrences of [sep], so one more piece than occurrences; the empty
    string gives one empty piece. *)
Fixpoint splitOn (sep : N) (s : JsString) : list JsString :=
  match s with
  | [] => [[]]
  | c :: s' =>
      if N.eqb c sep then [] :: splitOn sep s'
      else
        match splitOn sep s' with
        | piece :: pieces => (c :: piece) :: pieces
        | [] => [[c]]
        end
  end.

(** [pieces.join(sep)] for the same kind of separator. *)
Fixpoint joinWith (sep : N) (pieces : list JsString) : JsString :=
  match pieces with
  | [] => []
  | [piece] => piece
  | piece :: rest => piece ++ sep :: joinWith sep rest
  end.

(** The code unit of ['\n']. *)
Definition lineFeed : N := 10%N.

(** The child of one [<p>]: [{line || <br />}]. *)
Inductive Paragraph : Type :=
| Text (line : JsString)
| Br.

Definition renderLine (line : JsString) : Paragraph :=
  if truthy line then Text line else Br.

Inductive Icon : Type := UserIcon | BotIcon.

(** One entry of [messages.map((message) => ...)].  The time of day under
    the text is formatted by the browser's locale and is left out. *)
Record Bubble : Type :=
  { key : JsString;
    rowClass : JsString;
    bubbleClass : JsString;
    icon : Icon;
    paragraphs : list Paragraph }.

Definition renderMessage (message : ChatMessage) : Bubble :=
  {| key := id message;
     rowClass :=
       if Role_eqb (msg_role message) user
       then lit "justify-end" else lit "justify-start";
     bubbleClass :=
       if Role_eqb (msg_role message) user
       then lit "user-message" else lit "assistant-message";
     icon := if Role_eqb (msg_role message) user then UserIcon else BotIcon;
     paragraphs :=
       List.map renderLine (splitOn lineFeed (msg_content message)) |}.

(** The chat container: the greeting panel when [messages.length === 0],
    otherwise the bubbles followed by the bouncing dots when [isLoading]. *)
Inductive ChatArea : Type :=
| EmptyState
| MessageList (bubbles : list Bubble) (typing : bool).

(** The parts of the rendered page that depend on the state. *)
Record View : Type :=
  { connectionLabel : JsString;
    chatArea : ChatArea;
    inputValue : JsString;
    inputDisabled : bool;
    sendDisabled : bool }.

Definition render (r : State) : View :=
  {| connectionLabel :=
       if isConnected r then lit "Connected" else lit "Disconnected";
     chatArea :=
       match messages r with
       | [] => EmptyState
       | _ :: _ => MessageList (List.map renderMessage (messages r)) (isLoading r)
       end;
     inputValue := input r;
     inputDisabled := isLoading r;
     sendDisabled := isLoading r || negb (truthy (trim (input r))) |}.

(** [a === b] on strings: the same code units. *)
Fixpoint strictEquals (a b : JsString) : bool :=
  match a, b with
  | [], [] => true
  | x :: a', y :: b' => N.eqb x y && strictEquals a' b'
  | _, _ => false
  end.

(** The [onKeyDown] handler of the input box. *)
Definition handleKeyDown (key : JsString) (shiftKey : bool) (r : State)
  : Task unit :=
  if strictEquals key (lit "Enter") && negb shiftKey then
    preventDefault ;;;
    handleSendMessage r
  else Ret tt.

(** A key pressed in the input box; a disabled box receives no key events. *)
Definition keyDown (key : JsString) (shiftKey : bool) (w : World) : World :=
  if isLoading (ui w) then w
  else launch (handleKeyDown key shiftKey (ui w)) w.

(** The first settlement of the probe among the events, if any. *)
Fixpoint firstProbe (evs : list Event) : option (Settled Health) :=
  match evs with
  | [] => None
  | HealthSettles r :: _ => Some r
  | _ :: rest => firstProbe rest
  end.

(** The bodies of the [POST]s issued so far, oldest first. *)
Fixpoint postBodies (qs : list HttpRequest) : list ChatRequest :=
  match qs with
  | [] => []
  | POST _ body :: rest => body :: postBodies rest
  | GET _ :: rest => postBodies rest
  end.

(** A clock whose readings never go back and whose readings taken for
    different messages differ: the two readings taken for one message (its
    id and its timestamp, one after the other) may coincide, a reading two
    or more readings later is later in time. *)
Definition spaced (clk : nat -> Z) : Prop :=
  forall i j : nat, i + 2 <= j -> (clk i < clk j)%Z.

(** The text a paragraph stands for: a [<br />] is drawn for an empty line. *)
Definition paragraphText (p : Paragraph) : JsString :=
  match p with
  | Text line => line
  | Br => []
  end.

(** A request body the service can make sense of: a message that is not
    blank, and a history without connectivity notices. *)
Definition wellFormedBody (body : ChatRequest) : Prop :=
  whitespaceOnly (message body) = false /\
  Forall
    (fun m : Message =>
       ~ (role m = assistant /\ startsWith (content m) troublePrefix = true))
    (conversation_history body).

(** The probe is still pending and the first send is in flight. *)
Definition sampleEarlyInFlight : World :=
  run [Change (lit "What goes with navy blue?"); Submit] (mount sampleClock).

(** A reply that begins with the words of the connectivity notice. *)
Definition sampleTroubleReply : ChatResponse :=
  {| response := lit "I'm having trouble picking one. Grey, perhaps?";
     metadata := None |}.

(** ** Message ids *)

(** The three ids built from clock reading number [i]: the user message's
    [Date.now().toString()], the reply's [`msg-${Date.now()}`] and the
    request-error message's [`error-${Date.now()}`]. *)
Definition stampedWith (clk : nat -> Z) (i : nat) (m : ChatMessage) : Prop :=
  id m = toString (clk i) \/
  id m = lit "msg-" ++ toString (clk i) \/
  id m = lit "error-" ++ toString (clk i).

(** The two fixed ids of [checkConnection]. *)
Definition isSeed (m : ChatMessage) : Prop :=
  id m = lit "welcome" \/ id m = lit "error".

(** Messages stamped with readings whose numbers grow by two or more from
    one message to the next, the last one two or more below [n]. *)
Inductive Stamped (clk : nat -> Z) : nat -> list ChatMessage -> Prop :=
| Stamped_nil (n : nat) : Stamped clk n []
| Stamped_snoc (n i : nat) (l : list ChatMessage) (m : ChatMessage) :
    Stamped clk i l -> i + 2 <= n -> stampedWith clk i m ->
    Stamped clk n (l ++ [m]).

(** The shape of a session's transcript: at most one seeded message, then
    stamped ones. *)
Definition Keyed (w : World) : Prop :=
  exists seeds timed : list ChatMessage,
    transcript w = seeds ++ timed /\
    Forall isSeed seeds /\
    length seeds <= 1 /\
    Stamped (clock w) (reads w) timed.

(** An event that is not a rejection. *)
Definition settlesWell (ev : Event) : bool :=
  match ev with
  | HealthSettles (Rejected _) | ChatSettles (Rejected _) => false
  | _ => true
  end.

(** A clock with millisecond ticks read twice per tick. *)
Definition sampleCoarseClock : nat -> Z :=
  fun n => (1700000000000 + Z.of_nat (Nat.div2 n))%Z.
Lemma accepts_guard (r : State) :
  accepts r = true ->
  negb (truthy (trim (input r))) || isLoading r = false.
Proof. unfold accepts. intros H. now apply negb_true_iff in H. Qed.

Lemma accepts_not_loading (r : State) : accepts r = true -> isLoading r = false.
Proof.
  intros H. apply accepts_guard in H.
  now apply orb_false_iff in H.
Qed.

Lemma accepts_false_guard (r : State) :
  accepts r = false ->
  negb (truthy (trim (input r))) || isLoading r = true.
Proof. unfold accepts. intros H. now apply negb_false_iff in H. Qed.

(** An accepted submit runs up to the [POST] and suspends there. *)
Lemma exec_handleSendMessage_accepted (w : World) :
  accepts (ui w) = true ->
  exists k, isSendCont k /\
    exec (handleSendMessage (ui w)) w =
      (AwaitPost k,
       {| ui := {| messages := transcript w ++ [userMessageAt w];
                   input := lit "";
                   isLoading := true;
                   isConnected := isConnected (ui w) |};
          clock := clock w; reads := S (S (reads w));
          requests := requests w ++ [POST (lit "/chat") (requestAt w)];
          console := console w; prevented := S (prevented w);
          unhandled := unhandled w;
          pendingGet := pendingGet w; pendingPost := pendingPost w |}).
Proof.
  intros Hacc. apply accepts_guard in Hacc.
  unfold handleSendMessage. rewrite Hacc. cbn.
  eexists. split; [| reflexivity].
  intros [d | e] w2; reflexivity.
Qed.

(** A refused submit only calls [preventDefault]. *)
Lemma exec_handleSendMessage_refused (w : World) :
  accepts (ui w) = false ->
  exec (handleSendMessage (ui w)) w =
    (Done tt, with_prevented w (S (prevented w))).
Proof.
  intros Hacc. apply accepts_false_guard in Hacc.
  unfold handleSendMessage. rewrite Hacc. reflexivity.
Qed.

(** [checkConnection] runs up to the [GET] and suspends there. *)
Lemma exec_checkConnection (w : World) :
  exists k, isProbeCont k /\
    exec checkConnection w =
      (AwaitGet k, with_requests w (requests w ++ [GET (lit "/health")])).
Proof.
  eexists. split; [| reflexivity].
  intros [d | e] w2; reflexivity.
Qed.

Lemma step_Submit_accepted (w : World) :
  accepts (ui w) = true ->
  exists k, isSendCont k /\
    step Submit w =
      {| ui := {| messages := transcript w ++ [userMessageAt w];
                  input := lit "";
                  isLoading := true;
                  isConnected := isConnected (ui w) |};
         clock := clock w; reads := S (S (reads w));
         requests := requests w ++ [POST (lit "/chat") (requestAt w)];
         console := console w; prevented := S (prevented w);
         unhandled := unhandled w;
         pendingGet := pendingGet w; pendingPost := pendingPost w ++ [k] |}.
Proof.
  intros Hacc.
  destruct (exec_handleSendMessage_accepted w Hacc) as (k & Hk & E).
  exists k. split; [exact Hk |].
  unfold step, launch. rewrite E. reflexivity.
Qed.

Lemma step_Submit_refused (w : World) :
  accepts (ui w) = false ->
  step Submit w = with_prevented w (S (prevented w)).
Proof.
  intros Hacc. unfold step, launch.
  rewrite (exec_handleSendMessage_refused w Hacc). reflexivity.
Qed.

Lemma step_Change_loading (w : World) (v : JsString) :
  isLoading (ui w) = true -> step (Change v) w = w.
Proof. intros H. unfold step. now rewrite H. Qed.

Lemma step_Change_idle (w : World) (v : JsString) :
  isLoading (ui w) = false ->
  step (Change v) w = with_ui w (set_input (ui w) v).
Proof. intros H. unfold step. now rewrite H. Qed.

Lemma step_ChatSettles_cont (w : World) (res : Settled ChatResponse)
    (k : Settled ChatResponse -> Task unit)
    (rest : list (Settled ChatResponse -> Task unit)) :
  pendingPost w = k :: rest -> isSendCont k ->
  step (ChatSettles res) w = afterSend res (with_pendingPost w rest).
Proof.
  intros E Hk. unfold step, launch. rewrite E, Hk. reflexivity.
Qed.

Lemma step_HealthSettles_cont (w : World) (res : Settled Health)
    (k : Settled Health -> Task unit)
    (rest : list (Settled Health -> Task unit)) :
  pendingGet w = k :: rest -> isProbeCont k ->
  step (HealthSettles res) w = afterProbe res (with_pendingGet w rest).
Proof.
  intros E Hk. unfold step, launch. rewrite E, Hk. reflexivity.
Qed.

Lemma mount_closed_form (clk : nat -> Z) :
  exists k, isProbeCont k /\
    mount clk =
      {| ui := initialState; clock := clk; reads := 0;
         requests := [GET (lit "/health")];
         console := []; prevented := 0; unhandled := [];
         pendingGet := [k]; pendingPost := [] |}.
Proof.
  destruct (exec_checkConnection (initialWorld clk)) as (k & Hk & E).
  exists k. split; [exact Hk |].
  unfold mount, launch. rewrite E. reflexivity.
Qed.

Lemma run_app (evs1 evs2 : list Event) (w : World) :
  run (evs1 ++ evs2) w = run evs2 (run evs1 w).
Proof. unfold run. apply fold_left_app. Qed.

Lemma run_cons (ev : Event) (evs : list Event) (w : World) :
  run (ev :: evs) w = run evs (step ev w).
Proof. reflexivity. Qed.

Lemma Inv_mount (clk : nat -> Z) : Inv (mount clk).
Proof.
  destruct (mount_closed_form clk) as (k & Hk & ->).
  constructor; cbn; auto.
Qed.

Lemma Inv_step (ev : Event) (w : World) : Inv w -> Inv (step ev w).
Proof.
  intros [Hp Hg Hl Hgl Hq Hu]. destruct ev as [v | | res | res].
  - destruct (isLoading (ui w)) eqn:El.
    + rewrite step_Change_loading by exact El.
      constructor; auto. now rewrite El.
    + rewrite step_Change_idle by exact El.
      constructor; cbn; auto. now rewrite El.
  - destruct (accepts (ui w)) eqn:Ea.
    + destruct (step_Submit_accepted w Ea) as (k & Hk & ->).
      apply accepts_not_loading in Ea. rewrite Ea in Hl.
      constructor; cbn; auto.
      * apply Forall_app; auto.
      * rewrite length_app, Hl. reflexivity.
      * rewrite List.filter_app, Hq. reflexivity.
    + rewrite step_Submit_refused by exact Ea.
      constructor; cbn; auto.
  - destruct (pendingGet w) as [| k rest] eqn:Eg.
    + unfold step. rewrite Eg. constructor; rewrite ?Eg; auto.
    + apply Forall_cons in Hg as [Hk Hrest].
      rewrite (step_HealthSettles_cont w res k rest Eg Hk).
      constructor; cbn; auto. cbn in Hgl. lia.
  - destruct (pendingPost w) as [| k rest] eqn:Ep.
    + unfold step. rewrite Ep. constructor; rewrite ?Ep; auto.
    + apply Forall_cons in Hp as [Hk Hrest].
      rewrite (step_ChatSettles_cont w res k rest Ep Hk).
      assert (rest = []) as ->.
      { destruct (isLoading (ui w)); cbn in Hl; [| discriminate].
        destruct rest; [reflexivity | discriminate]. }
      constructor; cbn; auto.
Qed.

Lemma Inv_run (evs : list Event) (w : World) : Inv w -> Inv (run evs w).
Proof.
  revert w. induction evs as [| ev evs IH]; intros w Hw; [exact Hw |].
  rewrite run_cons. apply IH, Inv_step, Hw.
Qed.

Lemma reachable_Inv (w : World) : reachable w -> Inv w.
Proof. intros (clk & evs & ->). apply Inv_run, Inv_mount. Qed.

Lemma reachable_step (ev : Event) (w : World) :
  reachable w -> reachable (step ev w).
Proof.
  intros (clk & evs & ->). exists clk, (evs ++ [ev]).
  now rewrite run_app.
Qed.

Lemma reachable_run (evs : list Event) (w : World) :
  reachable w -> reachable (run evs w).
Proof.
  intros (clk & evs0 & ->). exists clk, (evs0 ++ evs).
  now rewrite run_app.
Qed.

Lemma trimStart_nil_iff (s : JsString) :
  trimStart s = [] <-> whitespaceOnly s = true.
Proof.
  induction s as [| c s IH]; cbn; [tauto |].
  destruct (isWhiteSpace c); cbn; [exact IH |].
  split; discriminate.
Qed.

Lemma trimStart_whitespaceOnly (s : JsString) :
  whitespaceOnly (trimStart s) = whitespaceOnly s.
Proof.
  induction s as [| c s IH]; cbn; [reflexivity |].
  destruct (isWhiteSpace c) eqn:E; cbn; [exact IH |].
  now rewrite E.
Qed.

Lemma whitespaceOnly_rev (s : JsString) :
  whitespaceOnly (List.rev s) = whitespaceOnly s.
Proof.
  unfold whitespaceOnly. induction s as [| c s IH]; cbn; [reflexivity |].
  rewrite forallb_app, IH. cbn. rewrite andb_true_r. apply andb_comm.
Qed.

Lemma truthy_trim (s : JsString) :
  truthy (trim s) = negb (whitespaceOnly s).
Proof.
  destruct (whitespaceOnly s) eqn:E; cbn.
  - unfold trim, trimEnd.
    replace (trimStart s) with (@nil N) by (symmetry; now apply trimStart_nil_iff).
    reflexivity.
  - destruct (trim s) as [| c t] eqn:Et; [| reflexivity].
    exfalso. unfold trim, trimEnd in Et.
    apply (f_equal (@List.rev N)) in Et. rewrite List.rev_involutive in Et.
    cbn in Et. apply trimStart_nil_iff in Et.
    rewrite whitespaceOnly_rev, trimStart_whitespaceOnly in Et. congruence.
Qed.

(** A submit is accepted exactly when the input has a character that is not
    white space and no send is in flight. *)
Lemma accepts_spec (r : State) :
  accepts r = negb (whitespaceOnly (input r)) && negb (isLoading r).
Proof.
  unfold accepts. rewrite truthy_trim.
  destruct (whitespaceOnly (input r)), (isLoading r); reflexivity.
Qed.

Lemma accepts_intro (r : State) :
  whitespaceOnly (input r) = false -> isLoading r = false -> accepts r = true.
Proof. intros H1 H2. rewrite accepts_spec, H1, H2. reflexivity. Qed.

(** In a session a [POST] is pending exactly while [isLoading] is set. *)
Lemma Inv_idle (w : World) :
  Inv w -> isLoading (ui w) = false -> pendingPost w = [].
Proof.
  intros Hi El. pose proof (inv_loading w Hi) as Hl. rewrite El in Hl.
  destruct (pendingPost w); [reflexivity | discriminate].
Qed.

Lemma Inv_in_flight (w : World) :
  Inv w -> pendingPost w <> [] -> isLoading (ui w) = true.
Proof.
  intros Hi Hne. destruct (isLoading (ui w)) eqn:El; [reflexivity |].
  exfalso. apply Hne. now apply Inv_idle.
Qed.

Lemma in_flight_step (ev : Event) (w : World) :
  Inv w -> isLoading (ui w) = true -> notChatSettles ev = true ->
  isLoading (ui (step ev w)) = true /\ pendingPost (step ev w) = pendingPost w.
Proof.
  intros Hi El Hev. destruct ev as [v | | res | res]; try discriminate.
  - rewrite step_Change_loading by exact El. auto.
  - rewrite step_Submit_refused; [auto |].
    rewrite accepts_spec, El. apply andb_false_r.
  - destruct (pendingGet w) as [| k rest] eqn:Eg.
    + unfold step. rewrite Eg. auto.
    + pose proof (inv_get w Hi) as Hg. rewrite Eg in Hg.
      apply Forall_cons in Hg as [Hk _].
      rewrite (step_HealthSettles_cont w res k rest Eg Hk). auto.
Qed.

Lemma in_flight_run (evs : list Event) (w : World) :
  Inv w -> isLoading (ui w) = true -> forallb notChatSettles evs = true ->
  isLoading (ui (run evs w)) = true /\ pendingPost (run evs w) = pendingPost w.
Proof.
  revert w. induction evs as [| ev evs IH]; intros w Hi El Hevs; [auto |].
  cbn in Hevs. apply andb_true_iff in Hevs as [Hev Hevs].
  destruct (in_flight_step ev w Hi El Hev) as [El' Ep'].
  rewrite run_cons.
  destruct (IH (step ev w) (Inv_step ev w Hi) El' Hevs) as [El'' Ep''].
  split; [exact El'' | congruence].
Qed.

(** An accepted submit in a session, the events that follow while the
    request is in flight, and its settlement. *)
Lemma send_round_trip (w : World) (mid : list Event)
    (res : Settled ChatResponse) :
  reachable w -> accepts (ui w) = true ->
  forallb notChatSettles mid = true ->
  let w1 := step Submit w in
  let wm := run mid w1 in
  let w2 := step (ChatSettles res) wm in
  transcript w1 = transcript w ++ [userMessageAt w] /\
  requests w1 = requests w ++ [POST (lit "/chat") (requestAt w)] /\
  isLoading (ui wm) = true /\
  w2 = afterSend res (with_pendingPost wm []).
Proof.
  intros Hr Hacc Hmid w1 wm w2. subst w1 wm w2.
  pose proof (reachable_Inv w Hr) as Hi.
  pose proof (Inv_step Submit w Hi) as Hi1.
  destruct (step_Submit_accepted w Hacc) as (k & Hk & E).
  pose proof (Inv_idle w Hi (accepts_not_loading _ Hacc)) as Ep.
  assert (isLoading (ui (step Submit w)) = true) as El1 by (now rewrite E).
  assert (pendingPost (step Submit w) = [k]) as Ep1
    by (rewrite E; cbn; now rewrite Ep).
  destruct (in_flight_run mid _ Hi1 El1 Hmid) as [Elm Epm].
  rewrite Ep1 in Epm.
  repeat split.
  - now rewrite E.
  - now rewrite E.
  - exact Elm.
  - apply (step_ChatSettles_cont _ res k []); assumption.
Qed.

(** ** The history filter *)

Lemma keepInHistory_spec (msg : ChatMessage) :
  keepInHistory msg = negb (isConnectivityNotice msg).
Proof.
  unfold keepInHistory, isConnectivityNotice.
  now rewrite negb_andb.
Qed.

Lemma conversationHistoryOf_spec (msgs : list ChatMessage) :
  conversationHistoryOf msgs =
  List.map toMessage
    (List.filter (fun msg => negb (isConnectivityNotice msg)) msgs).
Proof.
  unfold conversationHistoryOf. f_equal.
  apply List.filter_ext. intros msg. apply keepInHistory_spec.
Qed.

Lemma conversationHistoryOf_app (l1 l2 : list ChatMessage) :
  conversationHistoryOf (l1 ++ l2) =
  conversationHistoryOf l1 ++ conversationHistoryOf l2.
Proof.
  unfold conversationHistoryOf. now rewrite List.filter_app, List.map_app.
Qed.

(** Filtering keeps the surviving messages in transcript order. *)
Lemma conversationHistoryOf_sublist (msgs : list ChatMessage) :
  sublist (conversationHistoryOf msgs) (List.map toMessage msgs).
Proof.
  unfold conversationHistoryOf.
  induction msgs as [| m msgs IH]; cbn; [constructor |].
  destruct (keepInHistory m); cbn.
  - now apply sublist_skip.
  - now apply sublist_cons.
Qed.

Lemma conversationHistoryOf_no_notice (msgs : list ChatMessage) :
  Forall
    (fun m : Message =>
       ~ (role m = assistant /\ startsWith (content m) troublePrefix = true))
    (conversationHistoryOf msgs).
Proof.
  unfold conversationHistoryOf.
  induction msgs as [| m msgs IH]; cbn; [constructor |].
  destruct (keepInHistory m) eqn:Ek; cbn; [| exact IH].
  constructor; [| exact IH].
  cbn. intros [Hr Hs]. unfold keepInHistory in Ek.
  rewrite Hr, Hs in Ek. discriminate.
Qed.

(** Whatever is not an assistant message with the prefix survives. *)
Lemma conversationHistoryOf_keeps (msgs : list ChatMessage) (m : ChatMessage) :
  In m msgs ->
  msg_role m = user \/ startsWith (msg_content m) troublePrefix = false ->
  In (toMessage m) (conversationHistoryOf msgs).
Proof.
  intros Hin Hm. unfold conversationHistoryOf.
  apply List.in_map, List.filter_In. split; [exact Hin |].
  unfold keepInHistory. destruct Hm as [-> | ->]; [reflexivity |].
  apply orb_true_r.
Qed.

Lemma lastPost_snoc (w : World) (l : list HttpRequest) (url : JsString)
    (body : ChatRequest) :
  requests w = l ++ [POST url body] -> lastPost w = Some body.
Proof.
  intros E. unfold lastPost. now rewrite E, List.rev_app_distr.
Qed.

(** The request an accepted submit issues. *)
Lemma lastPost_Submit (w : World) :
  accepts (ui w) = true -> lastPost (step Submit w) = Some (requestAt w).
Proof.
  intros Hacc. destruct (step_Submit_accepted w Hacc) as (k & _ & E).
  apply (lastPost_snoc _ (requests w) (lit "/chat")). now rewrite E.
Qed.

Lemma transcript_Submit (w : World) :
  accepts (ui w) = true ->
  transcript (step Submit w) = transcript w ++ [userMessageAt w].
Proof.
  intros Hacc. destruct (step_Submit_accepted w Hacc) as (k & _ & E).
  now rewrite E.
Qed.

(** ** The sample worlds are worlds of a session *)

Lemma sampleIdle_reachable : reachable sampleIdle.
Proof.
  exists sampleClock,
    [HealthSettles (Resolved sampleHealth);
     Change (lit "What goes with navy blue?")].
  reflexivity.
Qed.

Lemma sampleInFlight_reachable : reachable sampleInFlight.
Proof. apply reachable_step, sampleIdle_reachable. Qed.

Lemma sampleOffline_reachable : reachable sampleOffline.
Proof.
  exists sampleClock,
    [HealthSettles (Rejected NetworkError);
     Change (lit "What goes with navy blue?")].
  reflexivity.
Qed.

(** ** The claims *)

(** C1.  In a session, a submit with text that is not white space only and
    no send in flight appends exactly one user message, holding the input,
    to the transcript; when its request settles, whatever other events came
    in between, exactly one assistant message is appended to the transcript
    as it then stands: the reply's text on success, the fixed request-error
    text on failure.  If nothing came in between, the transcript is the old
    one followed by these two messages in this order.  Afterwards nothing is
    pending, so no further message is appended for this send. *)
Theorem sendMessage_appends_user_then_assistant
    (w : World) (mid : list Event) (res : Settled ChatResponse) :
  reachable w ->
  whitespaceOnly (input (ui w)) = false ->
  isLoading (ui w) = false ->
  forallb notChatSettles mid = true ->
  let w1 := step Submit w in
  let wm := run mid w1 in
  let w2 := step (ChatSettles res) wm in
  exists u a : ChatMessage,
    transcript w1 = transcript w ++ [u] /\
    msg_role u = user /\ msg_content u = input (ui w) /\
    transcript w2 = transcript wm ++ [a] /\
    msg_role a = assistant /\
    msg_content a =
      match res with
      | Resolved d => response d
      | Rejected _ => requestErrorText
      end /\
    (mid = [] -> transcript w2 = transcript w ++ [u; a]) /\
    pendingPost w2 = [] /\
    (forall res', step (ChatSettles res') w2 = w2).
Proof.
  intros Hr Hws El Hmid w1 wm w2.
  pose proof (accepts_intro _ Hws El) as Hacc.
  destruct (send_round_trip w mid res Hr Hacc Hmid) as (E1 & _ & _ & E2).
  fold w1 in E1. fold w1 wm in E2. fold w2 in E2.
  exists (userMessageAt w), (assistantMessageAt res wm).
  assert (pendingPost w2 = []) as Ep by (now rewrite E2).
  assert (transcript w2 = transcript wm ++ [assistantMessageAt res wm]) as E4
    by (rewrite E2; now destruct res).
  repeat split.
  - exact E1.
  - exact E4.
  - now destruct res.
  - now destruct res.
  - intros Hnil. rewrite E4. subst wm. rewrite Hnil.
    change (run [] w1) with w1. now rewrite E1, <- app_assoc.
  - exact Ep.
  - intros res'. unfold step. now rewrite Ep.
Qed.

Lemma sendMessage_appends_user_then_assistant_witness :
  let w := sampleIdle in
  let res := Resolved sampleReply in
  exists u a : ChatMessage,
    transcript (step Submit w) = transcript w ++ [u] /\
    msg_role u = user /\ msg_content u = input (ui w) /\
    transcript (step (ChatSettles res) (run [] (step Submit w))) =
      transcript (run [] (step Submit w)) ++ [a] /\
    msg_role a = assistant /\
    msg_content a = lit "Try grey or white." /\
    (@nil Event = [] ->
     transcript (step (ChatSettles res) (run [] (step Submit w))) =
       transcript w ++ [u; a]) /\
    pendingPost (step (ChatSettles res) (run [] (step Submit w))) = [] /\
    (forall res',
       step (ChatSettles res') (step (ChatSettles res) (run [] (step Submit w)))
       = step (ChatSettles res) (run [] (step Submit w))).
Proof.
  apply (sendMessage_appends_user_then_assistant
           sampleIdle [] (Resolved sampleReply)).
  - exact sampleIdle_reachable.
  - vm_compute; reflexivity.
  - vm_compute; reflexivity.
  - reflexivity.
Defined.

(** C2 (as stated, refuted).  In the sample session the history sent with
    the question holds the welcome message only, while the filter applied
    to the transcript after the optimistic append also holds the question. *)
Lemma history_after_append_counterexample :
  accepts (ui sampleIdle) = true /\
  exists body : ChatRequest,
    lastPost (step Submit sampleIdle) = Some body /\
    conversation_history body <>
    conversationHistoryOf (transcript (step Submit sampleIdle)).
Proof.
  split; [vm_compute; reflexivity |].
  exists (requestAt sampleIdle). split; [vm_compute; reflexivity |].
  intros H. apply (f_equal (@length Message)) in H.
  vm_compute in H. discriminate.
Qed.

(** C2 (amended).  For every accepted send, the conversation_history issued
    equals the filter applied to the transcript as it stood when the handler
    was entered, before the optimistic append; the filter applied to the
    transcript after the append is that history followed by the new user
    message, which the request carries in its message field only. *)
Theorem history_is_filter_of_entry_transcript (w : World) :
  whitespaceOnly (input (ui w)) = false ->
  isLoading (ui w) = false ->
  exists body : ChatRequest,
    lastPost (step Submit w) = Some body /\
    conversation_history body = conversationHistoryOf (transcript w) /\
    message body = input (ui w) /\
    conversationHistoryOf (transcript (step Submit w)) =
      conversation_history body ++
      [{| role := user; content := input (ui w) |}].
Proof.
  intros Hws El. pose proof (accepts_intro _ Hws El) as Hacc.
  exists (requestAt w). repeat split.
  - now apply lastPost_Submit.
  - rewrite transcript_Submit by exact Hacc.
    now rewrite conversationHistoryOf_app.
Qed.

Lemma history_is_filter_of_entry_transcript_witness :
  whitespaceOnly (input (ui sampleIdle)) = false /\
  isLoading (ui sampleIdle) = false /\
  exists body : ChatRequest,
    lastPost (step Submit sampleIdle) = Some body /\
    conversation_history body = conversationHistoryOf (transcript sampleIdle) /\
    message body = input (ui sampleIdle) /\
    conversationHistoryOf (transcript (step Submit sampleIdle)) =
      conversation_history body ++
      [{| role := user; content := input (ui sampleIdle) |}].
Proof.
  split; [vm_compute; reflexivity |]. split; [vm_compute; reflexivity |].
  apply (history_is_filter_of_entry_transcript sampleIdle);
    vm_compute; reflexivity.
Defined.

(** C3 (as stated, refuted).  A user message that itself starts with the
    prefix is kept: it is part of the history sent with the next message. *)
Lemma history_excludes_prefix_any_role_counterexample :
  accepts (ui sampleTrouble) = true /\
  exists (body : ChatRequest) (m : Message),
    lastPost (step Submit sampleTrouble) = Some body /\
    In m (conversation_history body) /\
    startsWith (content m) troublePrefix = true.
Proof.
  split; [vm_compute; reflexivity |].
  exists (requestAt sampleTrouble),
    {| role := user; content := lit "I'm having trouble choosing shoes" |}.
  split; [vm_compute; reflexivity |]. split; [| vm_compute; reflexivity].
  vm_compute. right. left. reflexivity.
Qed.

(** C3 (amended).  For every accepted send, the conversation_history holds
    no assistant-role message whose content starts with the fixed prefix;
    it is the role and content of every other message of the transcript at
    handler entry (user messages whatever their text), in transcript order. *)
Theorem history_excludes_assistant_notices (w : World) :
  whitespaceOnly (input (ui w)) = false ->
  isLoading (ui w) = false ->
  exists body : ChatRequest,
    lastPost (step Submit w) = Some body /\
    Forall
      (fun m : Message =>
         ~ (role m = assistant /\
            startsWith (content m) troublePrefix = true))
      (conversation_history body) /\
    conversation_history body =
      List.map toMessage
        (List.filter (fun msg => negb (isConnectivityNotice msg))
           (transcript w)) /\
    sublist (conversation_history body) (List.map toMessage (transcript w)).
Proof.
  intros Hws El. pose proof (accepts_intro _ Hws El) as Hacc.
  exists (requestAt w). repeat split.
  - now apply lastPost_Submit.
  - apply conversationHistoryOf_no_notice.
  - apply conversationHistoryOf_spec.
  - apply conversationHistoryOf_sublist.
Qed.

Lemma history_excludes_assistant_notices_witness :
  whitespaceOnly (input (ui sampleTrouble)) = false /\
  isLoading (ui sampleTrouble) = false /\
  exists body : ChatRequest,
    lastPost (step Submit sampleTrouble) = Some body /\
    Forall
      (fun m : Message =>
         ~ (role m = assistant /\
            startsWith (content m) troublePrefix = true))
      (conversation_history body) /\
    conversation_history body =
      List.map toMessage
        (List.filter (fun msg => negb (isConnectivityNotice msg))
           (transcript sampleTrouble)) /\
    sublist (conversation_history body)
      (List.map toMessage (transcript sampleTrouble)).
Proof.
  split; [vm_compute; reflexivity |]. split; [vm_compute; reflexivity |].
  apply (history_excludes_assistant_notices sampleTrouble);
    vm_compute; reflexivity.
Defined.

(** C4.  In a session, a submit whose text is empty or white space only, or
    made while a send is in flight, changes nothing but the count of
    [preventDefault] calls: the transcript and the rest of the React state
    are unchanged, no request is issued, and no continuation is added to the
    pending ones, so nothing is left to run later; when the request in flight
    settles, the transcript and the requests are what they would have been
    without the refused submit. *)
Theorem sendMessage_refused_is_noop (w : World) :
  reachable w ->
  whitespaceOnly (input (ui w)) = true \/ pendingPost w <> [] ->
  let w' := step Submit w in
  w' = with_prevented w (S (prevented w)) /\
  transcript w' = transcript w /\
  ui w' = ui w /\
  requests w' = requests w /\
  pendingPost w' = pendingPost w /\
  forall res : Settled ChatResponse,
    transcript (step (ChatSettles res) w') =
      transcript (step (ChatSettles res) w) /\
    requests (step (ChatSettles res) w') = requests w /\
    pendingPost (step (ChatSettles res) w') = [].
Proof.
  intros Hr Hcase w'.
  pose proof (reachable_Inv w Hr) as Hi.
  assert (accepts (ui w) = false) as Hacc.
  { rewrite accepts_spec. destruct Hcase as [-> | Hp]; [reflexivity |].
    rewrite (Inv_in_flight w Hi Hp). apply andb_false_r. }
  assert (w' = with_prevented w (S (prevented w))) as E
    by (now apply step_Submit_refused).
  repeat split; try (rewrite E; reflexivity).
  - rewrite E. unfold step. cbn [pendingPost with_prevented].
    destruct (pendingPost w) as [| k rest] eqn:Ep; [reflexivity |].
    pose proof (inv_post w Hi) as Hk. rewrite Ep in Hk.
    apply Forall_cons in Hk as [Hk _].
    unfold launch. rewrite !Hk. now destruct res.
  - rewrite E. unfold step. cbn [pendingPost with_prevented].
    destruct (pendingPost w) as [| k rest] eqn:Ep; [reflexivity |].
    pose proof (inv_post w Hi) as Hk. rewrite Ep in Hk.
    apply Forall_cons in Hk as [Hk _].
    unfold launch. rewrite !Hk. reflexivity.
  - pose proof (Inv_step (ChatSettles res) w' (Inv_step Submit w Hi)) as Hi2.
    destruct (pendingPost w) as [| k rest] eqn:Ep.
    + rewrite E. unfold step. cbn [pendingPost with_prevented].
      rewrite Ep. cbn. exact Ep.
    + pose proof (inv_post w Hi) as Hk. rewrite Ep in Hk.
      apply Forall_cons in Hk as [Hk _].
      pose proof (inv_loading w Hi) as Hl. rewrite Ep in Hl.
      assert (rest = []) as ->.
      { destruct (isLoading (ui w)); cbn in Hl; [| discriminate].
        destruct rest; [reflexivity | discriminate]. }
      rewrite (step_ChatSettles_cont w' res k []); [reflexivity | | exact Hk].
      rewrite E. exact Ep.
Qed.

Lemma sendMessage_refused_is_noop_witness :
  let w := sampleInFlight in
  let w' := step Submit w in
  w' = with_prevented w (S (prevented w)) /\
  transcript w' = transcript w /\
  ui w' = ui w /\
  requests w' = requests w /\
  pendingPost w' = pendingPost w /\
  forall res : Settled ChatResponse,
    transcript (step (ChatSettles res) w') =
      transcript (step (ChatSettles res) w) /\
    requests (step (ChatSettles res) w') = requests w /\
    pendingPost (step (ChatSettles res) w') = [].
Proof.
  apply (sendMessage_refused_is_noop sampleInFlight).
  - exact sampleInFlight_reachable.
  - right. vm_compute. discriminate.
Defined.

(** C5.  In a session, whichever way the request of an accepted send
    settles (a reply, a response with a failure status, no response at all)
    and whatever other events came in between, the handler finishes without
    an exception escaping it, the in-flight flag is false afterwards and
    nothing stays pending; a failure shows as one appended assistant message
    with the fixed request-error text. *)
Theorem sendMessage_contains_failures
    (w : World) (mid : list Event) (res : Settled ChatResponse) :
  reachable w ->
  whitespaceOnly (input (ui w)) = false ->
  isLoading (ui w) = false ->
  forallb notChatSettles mid = true ->
  let wm := run mid (step Submit w) in
  let w2 := step (ChatSettles res) wm in
  isLoading (ui wm) = true /\
  isLoading (ui w2) = false /\
  unhandled w2 = [] /\
  pendingPost w2 = [] /\
  forall e : AxiosError, res = Rejected e ->
    exists a : ChatMessage,
      transcript w2 = transcript wm ++ [a] /\
      msg_role a = assistant /\
      msg_content a = requestErrorText.
Proof.
  intros Hr Hws El Hmid wm w2.
  pose proof (accepts_intro _ Hws El) as Hacc.
  destruct (send_round_trip w mid res Hr Hacc Hmid) as (_ & _ & Elm & E2).
  fold wm in Elm, E2. fold w2 in E2.
  assert (reachable w2) as Hr2.
  { subst w2 wm. now apply reachable_step, reachable_run, reachable_step. }
  repeat split.
  - exact Elm.
  - now rewrite E2.
  - apply (inv_unhandled w2), reachable_Inv, Hr2.
  - now rewrite E2.
  - intros e ->. exists (assistantMessageAt (Rejected e) wm).
    rewrite E2. repeat split.
Qed.

Lemma sendMessage_contains_failures_witness :
  let wm := run [HealthSettles (Resolved sampleHealth)] (step Submit sampleOffline) in
  let w2 := step (ChatSettles (Rejected (BadStatus 500))) wm in
  isLoading (ui wm) = true /\
  isLoading (ui w2) = false /\
  unhandled w2 = [] /\
  pendingPost w2 = [] /\
  forall e : AxiosError,
    @Rejected ChatResponse (BadStatus 500) = Rejected e ->
    exists a : ChatMessage,
      transcript w2 = transcript wm ++ [a] /\
      msg_role a = assistant /\
      msg_content a = requestErrorText.
Proof.
  apply (sendMessage_contains_failures sampleOffline
           [HealthSettles (Resolved sampleHealth)]
           (Rejected (BadStatus 500))).
  - exact sampleOffline_reachable.
  - vm_compute; reflexivity.
  - vm_compute; reflexivity.
  - reflexivity.
Defined.

(** C10.  For every accepted send, the content of the appended user message
    and the message field of the request are the input text as typed, white
    space at its ends included; [trim] serves the acceptance check only. *)
Theorem sendMessage_keeps_raw_input (w : World) :
  truthy (trim (input (ui w))) = true ->
  isLoading (ui w) = false ->
  exists (u : ChatMessage) (body : ChatRequest),
    transcript (step Submit w) = transcript w ++ [u] /\
    msg_content u = input (ui w) /\
    lastPost (step Submit w) = Some body /\
    message body = input (ui w).
Proof.
  intros Ht El.
  assert (accepts (ui w) = true) as Hacc
    by (unfold accepts; now rewrite Ht, El).
  exists (userMessageAt w), (requestAt w). repeat split.
  - now apply transcript_Submit.
  - now apply lastPost_Submit.
Qed.

Lemma sendMessage_keeps_raw_input_witness :
  trim (input (ui sampleSpaced)) = lit "navy or black?" /\
  input (ui sampleSpaced) = lit "  navy or black?  " /\
  exists (u : ChatMessage) (body : ChatRequest),
    transcript (step Submit sampleSpaced) = transcript sampleSpaced ++ [u] /\
    msg_content u = lit "  navy or black?  " /\
    lastPost (step Submit sampleSpaced) = Some body /\
    message body = lit "  navy or black?  ".
Proof.
  split; [vm_compute; reflexivity |]. split; [vm_compute; reflexivity |].
  apply (sendMessage_keeps_raw_input sampleSpaced); vm_compute; reflexivity.
Defined.

(** ** Connectivity and the transcript *)

Lemma exec_with_isConnected {A : Type} (t : Task A) :
  forall (w : World) (b : bool),
  exists b' : bool,
    exec t (with_isConnected w b) =
    (fst (exec t w), with_isConnected (snd (exec t w)) b').
Proof.
  induction t as [a | e | k IH | k IH | url k IH | url body k IH
                 | l e k IH | a k IH | v k IH | b0 k IH | b0 k IH];
    intros w b.
  - exists b. reflexivity.
  - exists b. reflexivity.
  - exact (IH (with_prevented w (S (prevented w))) b).
  - exact (IH (clock w (reads w)) (with_reads w (S (reads w))) b).
  - exists b. reflexivity.
  - exists b. reflexivity.
  - exact (IH (with_console w (console w ++ [(l, e)])) b).
  - exact (IH (with_ui w (set_messages (ui w) (applyAction a (messages (ui w))))) b).
  - exact (IH (with_ui w (set_input (ui w) v)) b).
  - exact (IH (with_ui w (set_isLoading (ui w) b0)) b).
  - exact (IH (with_ui w (set_isConnected (ui w) b0)) b0).
Qed.

Lemma launch_with_isConnected (t : Task unit) (w : World) (b : bool) :
  exists b' : bool,
    launch t (with_isConnected w b) = with_isConnected (launch t w) b'.
Proof.
  destruct (exec_with_isConnected t w b) as [b' E].
  exists b'. unfold launch. rewrite E.
  destruct (exec t w) as [[u | e | k | k] w']; reflexivity.
Qed.

Lemma step_with_isConnected (ev : Event) (w : World) (b : bool) :
  exists b' : bool,
    step ev (with_isConnected w b) = with_isConnected (step ev w) b'.
Proof.
  destruct ev as [v | | res | res]; unfold step.
  - change (isLoading (ui (with_isConnected w b))) with (isLoading (ui w)).
    destruct (isLoading (ui w)); [now exists b |].
    apply launch_with_isConnected.
  - change (handleSendMessage (ui (with_isConnected w b)))
      with (handleSendMessage (ui w)).
    apply launch_with_isConnected.
  - change (pendingGet (with_isConnected w b)) with (pendingGet w).
    destruct (pendingGet w) as [| k rest]; [now exists b |].
    apply (launch_with_isConnected (k res) (with_pendingGet w rest) b).
  - change (pendingPost (with_isConnected w b)) with (pendingPost w).
    destruct (pendingPost w) as [| k rest]; [now exists b |].
    apply (launch_with_isConnected (k res) (with_pendingPost w rest) b).
Qed.

Lemma run_with_isConnected (evs : list Event) :
  forall (w : World) (b : bool),
  exists b' : bool,
    run evs (with_isConnected w b) = with_isConnected (run evs w) b'.
Proof.
  induction evs as [| ev evs IH]; intros w b; [now exists b |].
  rewrite !run_cons.
  destruct (step_with_isConnected ev w b) as [b1 ->].
  apply IH.
Qed.

(** C8.  Two sessions that differ only in the connectivity flag accept the
    same submits and, under the same events, show the same transcript, input
    and in-flight flag and issue the same requests: the flag is never read
    by [handleSendMessage]. *)
Theorem sendMessage_independent_of_connectivity
    (w : World) (b1 b2 : bool) (evs : list Event) :
  accepts (ui (with_isConnected w b1)) = accepts (ui (with_isConnected w b2)) /\
  sendView (run evs (with_isConnected w b1)) =
  sendView (run evs (with_isConnected w b2)) /\
  forall res : Settled ChatResponse,
    sendView (run [Submit; ChatSettles res] (with_isConnected w b1)) =
    sendView (run [Submit; ChatSettles res] (with_isConnected w b2)).
Proof.
  assert (forall l, sendView (run l (with_isConnected w b1)) =
                    sendView (run l (with_isConnected w b2))) as H.
  { intros l.
    destruct (run_with_isConnected l w b1) as [c1 ->].
    destruct (run_with_isConnected l w b2) as [c2 ->].
    reflexivity. }
  split; [reflexivity |]. split; [apply H |]. intros res. apply H.
Qed.

(** Every step other than a resumed [checkConnection] extends the transcript
    at its tail and leaves the pending probe alone. *)
Lemma append_only_step (ev : Event) (w : World) :
  Inv w ->
  probeSettlesIn w [ev] = false ->
  transcript w `prefix_of` transcript (step ev w) /\
  pendingGet (step ev w) = pendingGet w.
Proof.
  intros Hi Hq. destruct ev as [v | | res | res].
  - destruct (isLoading (ui w)) eqn:El.
    + now rewrite step_Change_loading.
    + now rewrite step_Change_idle.
  - destruct (accepts (ui w)) eqn:Ea.
    + destruct (step_Submit_accepted w Ea) as (k & _ & ->).
      split; [| reflexivity]. now apply prefix_app_r.
    + now rewrite step_Submit_refused.
  - unfold probeSettlesIn in Hq. unfold step.
    destruct (pendingGet w) eqn:Eg; [| discriminate].
    split; [reflexivity | exact Eg].
  - destruct (pendingPost w) as [| k rest] eqn:Ep.
    + unfold step. now rewrite Ep.
    + pose proof (inv_post w Hi) as Hk. rewrite Ep in Hk.
      apply Forall_cons in Hk as [Hk _].
      rewrite (step_ChatSettles_cont w res k rest Ep Hk).
      split; [| reflexivity]. now apply prefix_app_r.
Qed.

Lemma append_only_run (evs : list Event) :
  forall w : World,
  Inv w ->
  probeSettlesIn w evs = false ->
  transcript w `prefix_of` transcript (run evs w).
Proof.
  induction evs as [| ev evs IH]; intros w Hi Hq; [reflexivity |].
  rewrite run_cons.
  assert (probeSettlesIn w [ev] = false) as Hq1.
  { unfold probeSettlesIn in *. destruct (pendingGet w); [reflexivity |].
    cbn in *. apply orb_false_iff in Hq as [-> _]. reflexivity. }
  destruct (append_only_step ev w Hi Hq1) as [Hp Hg].
  etransitivity; [exact Hp |].
  apply IH; [now apply Inv_step |].
  unfold probeSettlesIn in *. rewrite Hg.
  destruct (pendingGet w); [reflexivity |].
  cbn in Hq. now apply orb_false_iff in Hq as [_ ->].
Qed.

(** C6.  After mount the transcript is empty, the flag says unreachable and
    the probe is the one request issued.  When the probe succeeds the flag
    is set and the transcript is exactly the fixed assistant welcome
    message; when it fails (no response, or a failure status) the flag
    stays unset and the transcript is exactly the fixed assistant
    "trouble connecting" notice.  The probe settles once: a second
    settlement changes nothing, and no session ever issues another probe. *)
Theorem checkConnection_seeds_transcript (clk : nat -> Z) :
  let w0 := mount clk in
  transcript w0 = [] /\
  isConnected (ui w0) = false /\
  requests w0 = [GET (lit "/health")] /\
  (forall h : Health,
     let w1 := step (HealthSettles (Resolved h)) w0 in
     isConnected (ui w1) = true /\
     transcript w1 =
       [{| id := lit "welcome"; msg_role := assistant;
           msg_content := welcomeText; timestamp := clk 0 |}]) /\
  (forall e : AxiosError,
     let w1 := step (HealthSettles (Rejected e)) w0 in
     isConnected (ui w1) = false /\
     transcript w1 =
       [{| id := lit "error"; msg_role := assistant;
           msg_content := troubleText; timestamp := clk 0 |}]) /\
  (forall res res' : Settled Health,
     step (HealthSettles res') (step (HealthSettles res) w0) =
     step (HealthSettles res) w0) /\
  (forall evs : list Event,
     List.filter isGet (requests (run evs w0)) = [GET (lit "/health")]).
Proof.
  intros w0. repeat split.
  - intros [d | e] res'; reflexivity.
  - intros evs. apply inv_probes, Inv_run, Inv_mount.
Qed.

(** C7 (the code at the failing input).  A send accepted and answered while
    the startup probe is pending leaves a transcript of two messages; when
    the probe then settles, [checkConnection] sets the transcript to the
    welcome message alone, so the earlier transcript is not a prefix of the
    later one. *)
Theorem checkConnection_overwrites_transcript :
  let before := sampleEarlySend in
  let after := step (HealthSettles (Resolved sampleHealth)) before in
  List.map toMessage (transcript before) =
    [{| role := user; content := lit "What goes with navy blue?" |};
     {| role := assistant; content := lit "Try grey or white." |}] /\
  List.map toMessage (transcript after) =
    [{| role := assistant; content := welcomeText |}] /\
  ~ transcript before `prefix_of` transcript after.
Proof.
  cbv zeta. split; [reflexivity |]. split; [reflexivity |].
  intros [k H]. apply (f_equal (@length ChatMessage)) in H.
  rewrite length_app in H. vm_compute in H. lia.
Qed.

(** The filter keeps the request-error message: in a session, once a send
    has failed, every later accepted send reached without a resumed
    [checkConnection] in between carries the error message in its history. *)
Lemma request_error_message_kept_by_filter
    (w : World) (e : AxiosError) (later : list Event) :
  reachable w ->
  pendingPost w <> [] ->
  let w1 := step (ChatSettles (Rejected e)) w in
  let w2 := run later w1 in
  probeSettlesIn w1 later = false ->
  accepts (ui w2) = true ->
  startsWith requestErrorText troublePrefix = false /\
  exists body : ChatRequest,
    lastPost (step Submit w2) = Some body /\
    In {| role := assistant; content := requestErrorText |}
       (conversation_history body).
Proof.
  intros Hr Hp w1 w2 Hq Hacc. split; [reflexivity |].
  pose proof (reachable_Inv w Hr) as Hi.
  destruct (pendingPost w) as [| k rest] eqn:Ep; [congruence |].
  pose proof (inv_post w Hi) as Hk. rewrite Ep in Hk.
  apply Forall_cons in Hk as [Hk _].
  assert (w1 = afterSend (Rejected e) (with_pendingPost w rest)) as E1
    by (now apply (step_ChatSettles_cont w _ k rest)).
  pose proof (append_only_run later w1 (Inv_step _ w Hi) Hq) as [l Hl].
  fold w2 in Hl.
  exists (requestAt w2). split; [now apply lastPost_Submit |].
  set (a := assistantMessageAt (Rejected e) (with_pendingPost w rest)).
  change {| role := assistant; content := requestErrorText |}
    with (toMessage a).
  apply conversationHistoryOf_keeps; [| now right].
  rewrite Hl, E1. apply in_or_app. left.
  apply in_or_app. right. now left.
Qed.

(** C9 (the code at the failing input).  A send made while the startup
    probe is pending fails, and the request-error message is appended; the
    probe then settles and [checkConnection] replaces the transcript; the
    next accepted send carries a history of the welcome message alone,
    without the request-error message. *)
Theorem request_error_message_lost_after_probe :
  List.map toMessage (transcript sampleFailedEarly) =
    [{| role := user; content := lit "What goes with navy blue?" |};
     {| role := assistant; content := requestErrorText |}] /\
  accepts (ui sampleAfterOverwrite) = true /\
  lastPost (step Submit sampleAfterOverwrite) =
    Some {| message := lit "And with brown?";
            conversation_history :=
              [{| role := assistant; content := welcomeText |}] |} /\
  ~ In {| role := assistant; content := requestErrorText |}
       (conversationHistoryOf (transcript sampleAfterOverwrite)).
Proof.
  split; [reflexivity |]. split; [reflexivity |]. split; [reflexivity |].
  vm_compute. intros [H | []]. discriminate H.
Qed.

(** ** Scenarios of the specification *)

(** The question is answered: the transcript gains the user message and then
    the reply. *)
Example scenario_reply :
  List.map toMessage
    (transcript (run [Submit; ChatSettles (Resolved sampleReply)] sampleIdle)) =
  [{| role := assistant; content := welcomeText |};
   {| role := user; content := lit "What goes with navy blue?" |};
   {| role := assistant; content := lit "Try grey or white." |}].
Proof. reflexivity. Qed.

(** The probe failed, the send fails too: the notice stays out of the
    history, the transcript gains the user message and the request-error
    message, and the in-flight flag is false again. *)
Example scenario_failure :
  let w := run [Submit; ChatSettles (Rejected NetworkError)] sampleOffline in
  List.map toMessage (transcript w) =
    [{| role := assistant; content := troubleText |};
     {| role := user; content := lit "What goes with navy blue?" |};
     {| role := assistant; content := requestErrorText |}] /\
  lastPost w =
    Some {| message := lit "What goes with navy blue?";
            conversation_history := [] |} /\
  isLoading (ui w) = false /\
  isConnected (ui w) = false.
Proof. repeat split. Qed.

(** The connectivity notice starts with the prefix the filter looks for. *)
Example troubleText_has_prefix :
  startsWith troubleText troublePrefix = true.
Proof. reflexivity. Qed.

(** ** Further properties: the axios wrapper *)

(** X1.  [chatApi.sendMessage] issues one [POST /chat] whose body holds the two
    arguments unchanged, and suspends.  Resumed with a response it returns
    the response data as they are and touches nothing; resumed with a
    rejection it logs one console line and throws the very error axios
    rejected with. *)
Theorem chatApi_sendMessage_contract
    (message : JsString) (history : list Message) (w : World) :
  exists k : Settled ChatResponse -> Task ChatResponse,
    exec (chatApi.sendMessage message history) w =
      (AwaitPost k,
       with_requests w
         (requests w ++
          [POST (lit "/chat")
             {| Api.message := message; conversation_history := history |}]))
    /\
    (forall (d : ChatResponse) (w' : World),
       exec (k (Resolved d)) w' = (Done d, w')) /\
    (forall (e : AxiosError) (w' : World),
       exec (k (Rejected e)) w' =
         (Thrown e,
          with_console w'
            (console w' ++ [(lit "Error sending message:", e)]))).
Proof.
  eexists. split; [reflexivity |]. split; intros; reflexivity.
Qed.

(** X2.  [chatApi.getHealth] issues one [GET /health] and suspends.  Resumed
    with a response it returns the body; resumed with a rejection it logs
    one console line and throws the same error. *)
Theorem chatApi_getHealth_contract (w : World) :
  exists k : Settled Health -> Task Health,
    exec chatApi.getHealth w =
      (AwaitGet k, with_requests w (requests w ++ [GET (lit "/health")])) /\
    (forall (h : Health) (w' : World),
       exec (k (Resolved h)) w' = (Done h, w')) /\
    (forall (e : AxiosError) (w' : World),
       exec (k (Rejected e)) w' =
         (Thrown e,
          with_console w'
            (console w' ++ [(lit "Error checking API health:", e)]))).
Proof.
  eexists. split; [reflexivity |]. split; intros; reflexivity.
Qed.

(** ** Further properties: sessions *)

(** A step other than a settlement of the probe leaves the connectivity
    flag and the pending probe as they are. *)
Lemma step_keeps_connectivity (ev : Event) (w : World) :
  Inv w -> isHealthSettles ev = false ->
  isConnected (ui (step ev w)) = isConnected (ui w) /\
  pendingGet (step ev w) = pendingGet w.
Proof.
  intros Hi Hev. destruct ev as [v | | res | res]; try discriminate.
  - destruct (isLoading (ui w)) eqn:El.
    + now rewrite step_Change_loading.
    + now rewrite step_Change_idle.
  - destruct (accepts (ui w)) eqn:Ea.
    + now destruct (step_Submit_accepted w Ea) as (k & _ & ->).
    + now rewrite step_Submit_refused.
  - destruct (pendingPost w) as [| k rest] eqn:Ep.
    + unfold step. now rewrite Ep.
    + pose proof (inv_post w Hi) as Hk. rewrite Ep in Hk.
      apply Forall_cons in Hk as [Hk _].
      now rewrite (step_ChatSettles_cont w res k rest Ep Hk).
Qed.

(** The requests a step adds: one [POST] for an accepted submit, none
    otherwise. *)
Lemma step_requests (ev : Event) (w : World) :
  Inv w ->
  requests (step ev w) =
  requests w ++
  match ev with
  | Submit =>
      if accepts (ui w) then [POST (lit "/chat") (requestAt w)] else []
  | _ => []
  end.
Proof.
  intros Hi. destruct ev as [v | | res | res].
  - rewrite app_nil_r. destruct (isLoading (ui w)) eqn:El.
    + now rewrite step_Change_loading.
    + now rewrite step_Change_idle.
  - destruct (accepts (ui w)) eqn:Ea.
    + now destruct (step_Submit_accepted w Ea) as (k & _ & ->).
    + rewrite step_Submit_refused by exact Ea. now rewrite app_nil_r.
  - rewrite app_nil_r. destruct (pendingGet w) as [| k rest] eqn:Eg.
    + unfold step. now rewrite Eg.
    + pose proof (inv_get w Hi) as Hk. rewrite Eg in Hk.
      apply Forall_cons in Hk as [Hk _].
      now rewrite (step_HealthSettles_cont w res k rest Eg Hk).
  - rewrite app_nil_r. destruct (pendingPost w) as [| k rest] eqn:Ep.
    + unfold step. now rewrite Ep.
    + pose proof (inv_post w Hi) as Hk. rewrite Ep in Hk.
      apply Forall_cons in Hk as [Hk _].
      now rewrite (step_ChatSettles_cont w res k rest Ep Hk).
Qed.

(** X3.  In every session at most one send is in flight, and one is in flight
    exactly while [isLoading] is set. *)
Theorem one_send_in_flight (clk : nat -> Z) (evs : list Event) :
  let w := run evs (mount clk) in
  length (pendingPost w) <= 1 /\
  (isLoading (ui w) = true <-> pendingPost w <> []).
Proof.
  intros w. pose proof (Inv_run evs _ (Inv_mount clk)) as Hi. fold w in Hi.
  pose proof (inv_loading w Hi) as Hl.
  destruct (isLoading (ui w)); destruct (pendingPost w); cbn in *;
    try discriminate; split; try lia; split; congruence.
Qed.

(** X4.  In every session both operations catch whatever their requests reject
    with: no exception is ever left unhandled, whatever the probe and the
    sends settle with. *)
Theorem no_exception_escapes (clk : nat -> Z) (evs : list Event) :
  unhandled (run evs (mount clk)) = [].
Proof. apply inv_unhandled, Inv_run, Inv_mount. Qed.

Lemma isConnected_run (evs : list Event) :
  forall w : World,
  Inv w ->
  isConnected (ui (run evs w)) =
  match pendingGet w, firstProbe evs with
  | _ :: _, Some (Resolved _) => true
  | _, _ => isConnected (ui w)
  end.
Proof.
  induction evs as [| ev evs IH]; intros w Hi.
  - cbn. now destruct (pendingGet w).
  - rewrite run_cons, (IH _ (Inv_step ev w Hi)).
    destruct (isHealthSettles ev) eqn:Hev.
    + destruct ev as [v | | res | res]; try discriminate. cbn [firstProbe].
      destruct (pendingGet w) as [| k rest] eqn:Eg.
      * unfold step. rewrite Eg, Eg. reflexivity.
      * pose proof (inv_get w Hi) as Hk. rewrite Eg in Hk.
        apply Forall_cons in Hk as [Hk _].
        pose proof (inv_get_len w Hi) as Hlen. rewrite Eg in Hlen.
        assert (rest = []) as -> by (destruct rest; [easy | cbn in Hlen; lia]).
        rewrite (step_HealthSettles_cont w res k [] Eg Hk).
        now destruct res.
    + destruct (step_keeps_connectivity ev w Hi Hev) as [-> ->].
      destruct ev; try discriminate; reflexivity.
Qed.

(** X5.  The header reads "Connected" exactly when the first settlement of the
    startup probe was a success.  Nothing later changes it: not a failing
    send, not a second settlement. *)
Theorem connectivity_is_first_probe_outcome
    (clk : nat -> Z) (evs : list Event) :
  let w := run evs (mount clk) in
  isConnected (ui w) =
    match firstProbe evs with
    | Some (Resolved _) => true
    | _ => false
    end /\
  connectionLabel (render (ui w)) =
    match firstProbe evs with
    | Some (Resolved _) => lit "Connected"
    | _ => lit "Disconnected"
    end.
Proof.
  intros w. assert (isConnected (ui w) =
    match firstProbe evs with Some (Resolved _) => true | _ => false end) as E.
  { unfold w. rewrite (isConnected_run evs _ (Inv_mount clk)).
    destruct (mount_closed_form clk) as (k & _ & ->). cbn.
    destruct (firstProbe evs) as [[h | e] |]; reflexivity. }
  split; [exact E |].
  unfold render. cbn. rewrite E.
  destruct (firstProbe evs) as [[h | e] |]; reflexivity.
Qed.

(** A step never empties a transcript that has a message, and the
    transcript has a message whenever a send is in flight. *)
Lemma transcript_stays_nonempty (ev : Event) (w : World) :
  Inv w -> transcript w <> [] -> transcript (step ev w) <> [].
Proof.
  intros Hi Hne. destruct (probeSettlesIn w [ev]) eqn:Hq.
  - unfold probeSettlesIn in Hq.
    destruct (pendingGet w) as [| k rest] eqn:Eg; [discriminate |].
    destruct ev as [v | | res | res]; try discriminate.
    pose proof (inv_get w Hi) as Hk. rewrite Eg in Hk.
    apply Forall_cons in Hk as [Hk _].
    rewrite (step_HealthSettles_cont w res k rest Eg Hk). discriminate.
  - destruct (append_only_step ev w Hi Hq) as [[l ->] _].
    destruct (transcript w); [congruence | discriminate].
Qed.

Lemma loading_has_transcript_step (ev : Event) (w : World) :
  Inv w ->
  (isLoading (ui w) = true -> transcript w <> []) ->
  isLoading (ui (step ev w)) = true -> transcript (step ev w) <> [].
Proof.
  intros Hi Hw. destruct (isLoading (ui w)) eqn:El.
  - intros _. apply transcript_stays_nonempty; auto.
  - destruct ev as [v | | res | res].
    + rewrite step_Change_idle by exact El. cbn. congruence.
    + destruct (accepts (ui w)) eqn:Ea.
      * destruct (step_Submit_accepted w Ea) as (k & _ & ->).
        intros _. cbn. now destruct (transcript w).
      * rewrite step_Submit_refused by exact Ea. cbn. congruence.
    + destruct (pendingGet w) as [| k rest] eqn:Eg.
      * unfold step. rewrite Eg. congruence.
      * pose proof (inv_get w Hi) as Hk. rewrite Eg in Hk.
        apply Forall_cons in Hk as [Hk _].
        rewrite (step_HealthSettles_cont w res k rest Eg Hk). discriminate.
    + unfold step. rewrite (Inv_idle w Hi El). congruence.
Qed.

Lemma loading_has_transcript (w : World) :
  reachable w -> isLoading (ui w) = true -> transcript w <> [].
Proof.
  intros (clk & evs & ->).
  induction evs as [| ev evs IH] using rev_ind.
  - destruct (mount_closed_form clk) as (k & _ & ->). discriminate.
  - rewrite run_app. cbn [run fold_left].
    apply loading_has_transcript_step; [| exact IH].
    apply Inv_run, Inv_mount.
Qed.

(** X6.  In a session the bouncing dots are on screen whenever a send is in
    flight: they are drawn only beside a non-empty message list, and the
    list is never empty while [isLoading] is set. *)
Theorem typing_indicator_shown_while_loading (w : World) :
  reachable w ->
  isLoading (ui w) = true ->
  chatArea (render (ui w)) =
    MessageList (List.map renderMessage (transcript w)) true.
Proof.
  intros Hr El. pose proof (loading_has_transcript w Hr El) as Hne.
  unfold render, transcript in *. cbn. rewrite El.
  destruct (messages (ui w)); [congruence | reflexivity].
Qed.

Lemma typing_indicator_shown_while_loading_witness :
  chatArea (render (ui sampleInFlight)) =
    MessageList (List.map renderMessage (transcript sampleInFlight)) true.
Proof.
  apply (typing_indicator_shown_while_loading sampleInFlight).
  - exact sampleInFlight_reachable.
  - vm_compute; reflexivity.
Defined.

(** X7.  In a session, once the transcript holds a message the greeting panel of
    the empty chat is never drawn again, whatever happens next (a settling
    probe replaces the transcript by one message, not by none). *)
Theorem greeting_panel_never_returns (w : World) (evs : list Event) :
  reachable w ->
  transcript w <> [] ->
  chatArea (render (ui (run evs w))) <> EmptyState.
Proof.
  intros Hr Hne.
  assert (transcript (run evs w) <> []) as H.
  { pose proof (reachable_Inv w Hr) as Hi. clear Hr. revert w Hi Hne.
    induction evs as [| ev evs IH]; intros w Hi Hne; [exact Hne |].
    rewrite run_cons. apply IH; [now apply Inv_step |].
    now apply transcript_stays_nonempty. }
  unfold render, transcript in *. cbn.
  destruct (messages (ui (run evs w))); [congruence | discriminate].
Qed.

Lemma greeting_panel_never_returns_witness :
  chatArea
    (render (ui (run [HealthSettles (Resolved sampleHealth)] sampleEarlySend)))
  <> EmptyState.
Proof.
  apply (greeting_panel_never_returns sampleEarlySend
           [HealthSettles (Resolved sampleHealth)]).
  - exists sampleClock,
      [Change (lit "What goes with navy blue?");
       Submit;
       ChatSettles (Resolved sampleReply)].
    reflexivity.
  - vm_compute. discriminate.
Defined.

(** X8.  The send button is enabled exactly when a submit is accepted: a submit
    issues the request for the current input when the button is enabled and
    none when it is disabled, and appends the user message in the first case
    only. *)
Theorem send_button_matches_guard (w : World) :
  sendDisabled (render (ui w)) = negb (accepts (ui w)) /\
  requests (step Submit w) =
    (if sendDisabled (render (ui w)) then requests w
     else requests w ++ [POST (lit "/chat") (requestAt w)]) /\
  transcript (step Submit w) =
    (if sendDisabled (render (ui w)) then transcript w
     else transcript w ++ [userMessageAt w]).
Proof.
  assert (sendDisabled (render (ui w)) = negb (accepts (ui w))) as E.
  { unfold render, accepts. cbn. rewrite negb_involutive. apply orb_comm. }
  split; [exact E |]. rewrite E.
  destruct (accepts (ui w)) eqn:Ea; cbn [negb].
  - destruct (step_Submit_accepted w Ea) as (k & _ & ->). split; reflexivity.
  - rewrite step_Submit_refused by exact Ea. split; reflexivity.
Qed.

(** While a send is in flight nothing but its settlement changes the input. *)
Lemma in_flight_input_step (ev : Event) (w : World) :
  Inv w -> isLoading (ui w) = true -> notChatSettles ev = true ->
  input (ui (step ev w)) = input (ui w).
Proof.
  intros Hi El Hev. destruct ev as [v | | res | res]; try discriminate.
  - now rewrite step_Change_loading.
  - rewrite step_Submit_refused; [reflexivity |].
    rewrite accepts_spec, El. apply andb_false_r.
  - destruct (pendingGet w) as [| k rest] eqn:Eg.
    + unfold step. now rewrite Eg.
    + pose proof (inv_get w Hi) as Hg. rewrite Eg in Hg.
      apply Forall_cons in Hg as [Hk _].
      now rewrite (step_HealthSettles_cont w res k rest Eg Hk).
Qed.

Lemma in_flight_input_run (evs : list Event) :
  forall w : World,
  Inv w -> isLoading (ui w) = true -> forallb notChatSettles evs = true ->
  input (ui (run evs w)) = input (ui w).
Proof.
  induction evs as [| ev evs IH]; intros w Hi El Hevs; [reflexivity |].
  cbn in Hevs. apply andb_true_iff in Hevs as [Hev Hevs].
  rewrite run_cons.
  destruct (in_flight_step ev w Hi El Hev) as [El' _].
  rewrite (IH _ (Inv_step ev w Hi) El' Hevs).
  now apply in_flight_input_step.
Qed.

(** X9.  An accepted submit clears the input box and disables it; typing and
    anything else that happens while the request is in flight leaves it
    empty; after the settlement the box is enabled and still empty, the send
    button is disabled, and a submit without new typing is refused. *)
Theorem input_cleared_until_next_typing
    (w : World) (mid : list Event) (res : Settled ChatResponse) :
  reachable w ->
  accepts (ui w) = true ->
  forallb notChatSettles mid = true ->
  let wm := run mid (step Submit w) in
  let w2 := step (ChatSettles res) wm in
  input (ui wm) = lit "" /\
  inputDisabled (render (ui wm)) = true /\
  input (ui w2) = lit "" /\
  inputDisabled (render (ui w2)) = false /\
  sendDisabled (render (ui w2)) = true /\
  step Submit w2 = with_prevented w2 (S (prevented w2)).
Proof.
  intros Hr Hacc Hmid wm w2.
  destruct (send_round_trip w mid res Hr Hacc Hmid) as (_ & _ & Elm & E2).
  fold wm in Elm, E2. fold w2 in E2.
  pose proof (Inv_step Submit w (reachable_Inv w Hr)) as Hi1.
  destruct (step_Submit_accepted w Hacc) as (k & _ & E1).
  assert (input (ui wm) = lit "") as Em.
  { unfold wm. rewrite in_flight_input_run; auto; now rewrite E1. }
  assert (input (ui w2) = lit "") as E3 by (now rewrite E2).
  assert (accepts (ui w2) = false) as Hno
    by (rewrite accepts_spec, E3; reflexivity).
  repeat split.
  - exact Em.
  - exact Elm.
  - exact E3.
  - now rewrite E2.
  - unfold render. cbn [sendDisabled]. rewrite E3. apply orb_true_r.
  - now apply step_Submit_refused.
Qed.

Lemma input_cleared_until_next_typing_witness :
  let wm := run [Change (lit "more"); Submit] (step Submit sampleIdle) in
  let w2 := step (ChatSettles (Resolved sampleReply)) wm in
  input (ui wm) = lit "" /\
  inputDisabled (render (ui wm)) = true /\
  input (ui w2) = lit "" /\
  inputDisabled (render (ui w2)) = false /\
  sendDisabled (render (ui w2)) = true /\
  step Submit w2 = with_prevented w2 (S (prevented w2)).
Proof.
  apply (input_cleared_until_next_typing sampleIdle
           [Change (lit "more"); Submit] (Resolved sampleReply)).
  - exact sampleIdle_reachable.
  - vm_compute; reflexivity.
  - reflexivity.
Defined.

(** Typing into the idle box and submitting, in closed form. *)
Lemma change_then_submit (w : World) (value : JsString) :
  isLoading (ui w) = false ->
  whitespaceOnly value = false ->
  let w1 := with_ui w (set_input (ui w) value) in
  run [Change value; Submit] w = step Submit w1 /\
  accepts (ui w1) = true.
Proof.
  intros El Hws w1. split.
  - now rewrite run_cons, step_Change_idle.
  - now apply accepts_intro.
Qed.

(** X10.  Typing a text that is not blank into the idle box and submitting sends
    exactly that text, with the history of the transcript as it was, shows
    it as the new last message and clears the box. *)
Theorem typed_text_is_sent (w : World) (value : JsString) :
  isLoading (ui w) = false ->
  whitespaceOnly value = false ->
  let w' := run [Change value; Submit] w in
  lastPost w' =
    Some {| message := value;
            conversation_history := conversationHistoryOf (transcript w) |} /\
  (exists u : ChatMessage,
     transcript w' = transcript w ++ [u] /\
     msg_role u = user /\ msg_content u = value) /\
  input (ui w') = lit "" /\
  isLoading (ui w') = true.
Proof.
  intros El Hws w'. unfold w'.
  destruct (change_then_submit w value El Hws) as [-> Hacc].
  set (w1 := with_ui w (set_input (ui w) value)) in *.
  split; [now apply lastPost_Submit |].
  destruct (step_Submit_accepted w1 Hacc) as (k & _ & ->).
  split; [| split; reflexivity].
  exists (userMessageAt w1). repeat split.
Qed.

Lemma typed_text_is_sent_witness :
  let w' := run [Change (lit " scarf? "); Submit] sampleIdle in
  lastPost w' =
    Some {| message := lit " scarf? ";
            conversation_history :=
              conversationHistoryOf (transcript sampleIdle) |} /\
  (exists u : ChatMessage,
     transcript w' = transcript sampleIdle ++ [u] /\
     msg_role u = user /\ msg_content u = lit " scarf? ") /\
  input (ui w') = lit "" /\
  isLoading (ui w') = true.
Proof.
  apply (typed_text_is_sent sampleIdle (lit " scarf? "));
    vm_compute; reflexivity.
Defined.



(** ** Further properties: rendering a message *)

Lemma splitOn_nonempty (sep : N) (s : JsString) : splitOn sep s <> [].
Proof.
  destruct s as [| c s]; cbn; [discriminate |].
  destruct (N.eqb c sep); [discriminate |].
  destruct (splitOn sep s); discriminate.
Qed.

Lemma joinWith_splitOn (sep : N) (s : JsString) :
  joinWith sep (splitOn sep s) = s.
Proof.
  induction s as [| c s IH]; [reflexivity |].
  cbn [splitOn]. destruct (N.eqb c sep) eqn:E.
  - apply N.eqb_eq in E. subst c.
    pose proof (splitOn_nonempty sep s) as Hne.
    destruct (splitOn sep s) as [| p ps]; [congruence |].
    cbn [joinWith app]. cbn [joinWith] in IH. now rewrite IH.
  - destruct (splitOn sep s) as [| p ps].
    + cbn in IH. now rewrite <- IH.
    + destruct ps as [| q ps]; cbn [joinWith] in *.
      * now rewrite IH.
      * cbn [app]. now rewrite IH.
Qed.

Lemma length_splitOn (sep : N) (s : JsString) :
  length (splitOn sep s) = S (count_occ N.eq_dec s sep).
Proof.
  induction s as [| c s IH]; [reflexivity |].
  cbn [splitOn count_occ]. destruct (N.eqb_spec c sep) as [-> | Hne].
  - destruct (N.eq_dec sep sep); [| congruence]. cbn. now rewrite IH.
  - destruct (N.eq_dec c sep); [congruence |].
    destruct (splitOn sep s) as [| p ps]; [discriminate |]. exact IH.
Qed.

Lemma splitOn_no_sep (sep : N) (s : JsString) :
  Forall (fun piece => ~ In sep piece) (splitOn sep s).
Proof.
  induction s as [| c s IH]; cbn [splitOn].
  - constructor; [intros [] | constructor].
  - destruct (N.eqb_spec c sep) as [-> | Hne].
    + constructor; [intros [] | exact IH].
    + destruct (splitOn sep s) as [| p ps].
      * constructor; [| constructor]. intros [H | []]. congruence.
      * apply Forall_cons in IH as [Hp Hps].
        constructor; [| exact Hps]. intros [H | H]; [congruence | auto].
Qed.

Lemma paragraphText_renderLine (line : JsString) :
  paragraphText (renderLine line) = line.
Proof. now destruct line. Qed.

(** X12.  The paragraphs of a bubble spell its message exactly: there is one more
    paragraph than line feeds in the content, none holds a line feed, an
    empty line is drawn as a line break and never as an empty text, and
    joining the paragraphs' texts with line feeds gives the content back. *)
Theorem bubble_paragraphs_spell_content (message : ChatMessage) :
  let ps := paragraphs (renderMessage message) in
  length ps = S (count_occ N.eq_dec (msg_content message) lineFeed) /\
  joinWith lineFeed (List.map paragraphText ps) = msg_content message /\
  Forall
    (fun p =>
       match p with
       | Text line => line <> [] /\ ~ In lineFeed line
       | Br => True
       end) ps.
Proof.
  cbn. repeat split.
  - now rewrite length_map, length_splitOn.
  - rewrite List.map_map.
    rewrite (List.map_ext _ (fun l => l) paragraphText_renderLine).
    rewrite List.map_id. apply joinWith_splitOn.
  - pose proof (splitOn_no_sep lineFeed (msg_content message)) as H.
    induction H as [| l ls Hl _ IH]; cbn; constructor; auto.
    destruct l; cbn; [exact I | split; [discriminate | exact Hl]].
Qed.

(** ** Further properties: the Enter key *)

(** X13.  Pressing Enter without Shift in the enabled input box does what
    submitting the form does (the same React state, the same requests, the
    same number of pending sends) and calls [preventDefault] once more; any
    other key, Enter with Shift, or a disabled box changes nothing. *)
Theorem enter_key_submits (key : JsString) (shiftKey : bool) (w : World) :
  let w' := keyDown key shiftKey w in
  if negb (isLoading (ui w)) && strictEquals key (lit "Enter") && negb shiftKey
  then
    ui w' = ui (step Submit w) /\
    requests w' = requests (step Submit w) /\
    length (pendingPost w') = length (pendingPost (step Submit w)) /\
    prevented w' = S (prevented (step Submit w))
  else w' = w.
Proof.
  unfold keyDown, handleKeyDown.
  destruct (isLoading (ui w)) eqn:El; cbn [negb andb]; [reflexivity |].
  destruct (strictEquals key (lit "Enter") && negb shiftKey); [| reflexivity].
  set (w1 := with_prevented w (S (prevented w))).
  change (launch (preventDefault;;; handleSendMessage (ui w)) w)
    with (step Submit w1).
  destruct (accepts (ui w)) eqn:Ea.
  - destruct (step_Submit_accepted w Ea) as (k & _ & ->).
    destruct (step_Submit_accepted w1 Ea) as (k1 & _ & ->).
    cbn. rewrite !length_app. repeat split.
  - rewrite (step_Submit_refused w Ea), (step_Submit_refused w1 Ea).
    repeat split.
Qed.

(** ** Further properties: what reaches the service *)

Lemma postBodies_app (l1 l2 : list HttpRequest) :
  postBodies (l1 ++ l2) = postBodies l1 ++ postBodies l2.
Proof.
  induction l1 as [| [url | url body] l1 IH]; cbn; [reflexivity | exact IH |].
  now rewrite IH.
Qed.

(** X14.  Every request a session ever posts has a message that is not blank and
    a history free of assistant messages that start with the prefix of the
    connectivity notice. *)
Theorem every_request_is_well_formed (clk : nat -> Z) (evs : list Event) :
  Forall wellFormedBody (postBodies (requests (run evs (mount clk)))).
Proof.
  induction evs as [| ev evs IH] using rev_ind.
  - destruct (mount_closed_form clk) as (k & _ & ->). constructor.
  - rewrite run_app. cbn [run fold_left].
    set (w := run evs (mount clk)) in *.
    assert (Inv w) as Hi by apply Inv_run, Inv_mount.
    rewrite (step_requests ev w Hi), postBodies_app.
    apply Forall_app. split; [exact IH |].
    destruct ev as [v | | res | res]; try constructor.
    destruct (accepts (ui w)) eqn:Ea; constructor; [| constructor].
    split.
    + rewrite accepts_spec in Ea. apply andb_true_iff in Ea as [Ea _].
      now apply negb_true_iff in Ea.
    + apply conversationHistoryOf_no_notice.
Qed.

(** X15.  A later request continues the conversation of an earlier one: when no
    probe settles in between, its history is the earlier history, then the
    earlier message as a user entry, then whatever followed. *)
Theorem history_extends_previous (w : World) (later : list Event) :
  reachable w ->
  accepts (ui w) = true ->
  let w1 := step Submit w in
  let w2 := run later w1 in
  probeSettlesIn w1 later = false ->
  accepts (ui w2) = true ->
  exists (b1 b2 : ChatRequest) (rest : list Message),
    lastPost w1 = Some b1 /\
    lastPost (step Submit w2) = Some b2 /\
    conversation_history b2 =
      conversation_history b1 ++
      {| role := user; content := message b1 |} :: rest.
Proof.
  intros Hr Hacc w1 w2 Hq Hacc2.
  pose proof (Inv_step Submit w (reachable_Inv w Hr)) as Hi1. fold w1 in Hi1.
  destruct (append_only_run later w1 Hi1 Hq) as [l Hl]. fold w2 in Hl.
  exists (requestAt w), (requestAt w2), (conversationHistoryOf l).
  split; [now apply lastPost_Submit |].
  split; [now apply lastPost_Submit |].
  cbn [conversation_history requestAt message]. rewrite Hl.
  unfold w1. rewrite (transcript_Submit w Hacc).
  now rewrite !conversationHistoryOf_app, <- app_assoc.
Qed.

Lemma history_extends_previous_witness :
  let w1 := step Submit sampleIdle in
  let w2 := run [ChatSettles (Resolved sampleReply);
                 Change (lit "And with brown?")] w1 in
  exists (b1 b2 : ChatRequest) (rest : list Message),
    lastPost w1 = Some b1 /\
    lastPost (step Submit w2) = Some b2 /\
    conversation_history b2 =
      conversation_history b1 ++
      {| role := user; content := message b1 |} :: rest.
Proof.
  apply (history_extends_previous sampleIdle
           [ChatSettles (Resolved sampleReply);
            Change (lit "And with brown?")]).
  - exact sampleIdle_reachable.
  - vm_compute; reflexivity.
  - vm_compute; reflexivity.
  - vm_compute; reflexivity.
Defined.

(** X16.  What a settled send adds to the history of the next request: the
    request-error message after a failure; after a reply its text, unless
    the text starts with the prefix of the connectivity notice, in which
    case the reply is shown to the user but never sent back. *)
Theorem settled_send_in_next_history
    (w : World) (mid : list Event) (res : Settled ChatResponse) :
  reachable w ->
  accepts (ui w) = true ->
  forallb notChatSettles mid = true ->
  let wm := run mid (step Submit w) in
  let w2 := step (ChatSettles res) wm in
  conversationHistoryOf (transcript w2) =
    conversationHistoryOf (transcript wm) ++
    match res with
    | Resolved d =>
        if startsWith (response d) troublePrefix then []
        else [{| role := assistant; content := response d |}]
    | Rejected _ => [{| role := assistant; content := requestErrorText |}]
    end.
Proof.
  intros Hr Hacc Hmid wm w2.
  destruct (send_round_trip w mid res Hr Hacc Hmid) as (_ & _ & _ & E2).
  fold wm in E2. fold w2 in E2.
  assert (transcript w2 = transcript wm ++ [assistantMessageAt res wm]) as ->
    by (rewrite E2; now destruct res).
  rewrite conversationHistoryOf_app. f_equal.
  destruct res as [d | e]; [| reflexivity].
  unfold conversationHistoryOf, keepInHistory. cbn.
  now destruct (startsWith (response d) troublePrefix).
Qed.

Lemma settled_send_in_next_history_witness :
  let wm := run [] (step Submit sampleIdle) in
  let w2 := step (ChatSettles (Resolved sampleTroubleReply)) wm in
  conversationHistoryOf (transcript w2) =
    conversationHistoryOf (transcript wm) ++
    (if startsWith (response sampleTroubleReply) troublePrefix then []
     else [{| role := assistant; content := response sampleTroubleReply |}]).
Proof.
  apply (settled_send_in_next_history sampleIdle []
           (Resolved sampleTroubleReply)).
  - exact sampleIdle_reachable.
  - vm_compute; reflexivity.
  - reflexivity.
Defined.

(** ** Further properties: message ids as React keys *)

Lemma lit_inj (s1 s2 : string) : lit s1 = lit s2 -> s1 = s2.
Proof.
  unfold lit. intros H.
  apply (f_equal (List.map ascii_of_N)) in H.
  rewrite !List.map_map in H.
  rewrite !(List.map_ext _ (fun a => a) ascii_N_embedding), !List.map_id in H.
  apply (f_equal string_of_list_ascii) in H.
  now rewrite !string_of_list_ascii_of_string in H.
Qed.

Lemma parse_toString (z : Z) :
  NilZero.int_of_string (NilZero.string_of_int (Z.to_int z)) =
  Some (Z.to_int z).
Proof.
  apply NilZero.isi; destruct z; cbn; try discriminate;
    intros [= H]; now apply DecimalPos.Unsigned.to_uint_nonnil in H.
Qed.

Lemma toString_inj (a b : Z) : toString a = toString b -> a = b.
Proof.
  unfold toString. intros H. apply lit_inj in H.
  apply DecimalZ.to_int_inj.
  pose proof (parse_toString a) as Ha. rewrite H, parse_toString in Ha.
  congruence.
Qed.

Lemma parse_letter (c : ascii) (s : string) :
  In c ["e"; "m"; "w"]%char ->
  NilZero.int_of_string (String c s) = None.
Proof.
  intros [<- | [<- | [<- | []]]]; cbn;
    destruct (NilEmpty.uint_of_string s); reflexivity.
Qed.

(** A number's decimal form starts with a digit or a minus sign, so not
    with one of the letters the other ids start with. *)
Lemma toString_head (z : Z) (c : N) (rest : JsString) :
  toString z = c :: rest -> ~ In c [101; 109; 119]%N.
Proof.
  unfold toString, lit. intros H Hc.
  pose proof (parse_toString z) as Hp.
  destruct (NilZero.string_of_int (Z.to_int z)) as [| a s]; [discriminate |].
  cbn in H. injection H as Ha _.
  assert (In a ["e"; "m"; "w"]%char) as Hin.
  { rewrite <- (ascii_N_embedding a), Ha.
    destruct Hc as [<- | [<- | [<- | []]]]; cbn; auto. }
  rewrite (parse_letter a s Hin) in Hp. discriminate.
Qed.

Lemma stamped_ids_differ (clk : nat -> Z) (i j : nat) (m m' : ChatMessage) :
  clk i <> clk j ->
  stampedWith clk i m -> stampedWith clk j m' -> id m <> id m'.
Proof.
  intros Hne [Hm | [Hm | Hm]] [Hm' | [Hm' | Hm']] E;
    rewrite Hm, Hm' in E.
  - now apply toString_inj in E.
  - apply (toString_head _ _ _ E). cbn. auto.
  - apply (toString_head _ _ _ E). cbn. auto.
  - symmetry in E. apply (toString_head _ _ _ E). cbn. auto.
  - apply app_inv_head in E. now apply toString_inj in E.
  - discriminate E.
  - symmetry in E. apply (toString_head _ _ _ E). cbn. auto.
  - discriminate E.
  - apply app_inv_head in E. now apply toString_inj in E.
Qed.

Lemma seed_not_stamped (clk : nat -> Z) (i : nat) (m m' : ChatMessage) :
  isSeed m -> stampedWith clk i m' -> id m <> id m'.
Proof.
  intros [Hm | Hm] [Hm' | [Hm' | Hm']] E; rewrite Hm, Hm' in E;
    try discriminate E;
    symmetry in E; apply (toString_head _ _ _ E); cbn; auto.
Qed.

Lemma Stamped_members (clk : nat -> Z) (n : nat) (l : list ChatMessage) :
  Stamped clk n l ->
  forall m, In m l -> exists i, i + 2 <= n /\ stampedWith clk i m.
Proof.
  induction 1 as [n | n i l m Hl IH Hi Hm]; intros m' Hin; [destruct Hin |].
  apply in_app_or in Hin as [Hin | [<- | []]].
  - destruct (IH m' Hin) as (j & Hj & Hs). exists j. split; [lia | exact Hs].
  - exists i. auto.
Qed.

Lemma Stamped_NoDup (clk : nat -> Z) (n : nat) (l : list ChatMessage) :
  spaced clk -> Stamped clk n l -> NoDup (List.map id l).
Proof.
  intros Hinc. induction 1 as [n | n i l m Hl IH Hi Hm]; [constructor |].
  rewrite List.map_app. apply NoDup_app. split; [exact IH |]. split.
  - intros x Hx Hx'. cbn in Hx'. apply list_elem_of_In in Hx, Hx'.
    destruct Hx' as [<- | []].
    apply List.in_map_iff in Hx as (m' & E & Hin).
    destruct (Stamped_members clk i l Hl m' Hin) as (j & Hj & Hs).
    apply (stamped_ids_differ clk j i m' m); auto.
    specialize (Hinc j i Hj). lia.
  - cbn. apply NoDup_singleton.
Qed.

Lemma Keyed_mount (clk : nat -> Z) : Keyed (mount clk) /\ clock (mount clk) = clk.
Proof.
  destruct (mount_closed_form clk) as (k & _ & ->). split; [| reflexivity].
  exists [], []. repeat split; cbn; auto. constructor.
Qed.

Lemma Keyed_step (ev : Event) (w : World) :
  Inv w -> Keyed w ->
  Keyed (step ev w) /\ clock (step ev w) = clock w.
Proof.
  intros Hi (seeds & timed & Et & Hs & Hlen & Ht).
  destruct ev as [v | | res | res].
  - destruct (isLoading (ui w)) eqn:El.
    + rewrite step_Change_loading by exact El.
      split; [| reflexivity]. now exists seeds, timed.
    + rewrite step_Change_idle by exact El.
      split; [| reflexivity]. now exists seeds, timed.
  - destruct (accepts (ui w)) eqn:Ea.
    + destruct (step_Submit_accepted w Ea) as (k & _ & ->).
      split; [| reflexivity].
      exists seeds, (timed ++ [userMessageAt w]). cbn.
      repeat split; auto.
      * unfold transcript in *. cbn. now rewrite Et, app_assoc.
      * apply (Stamped_snoc _ _ (reads w)); [exact Ht | lia | now left].
    + rewrite step_Submit_refused by exact Ea.
      split; [| reflexivity]. now exists seeds, timed.
  - destruct (pendingGet w) as [| k rest] eqn:Eg.
    + unfold step. rewrite Eg. split; [| reflexivity]. now exists seeds, timed.
    + pose proof (inv_get w Hi) as Hk. rewrite Eg in Hk.
      apply Forall_cons in Hk as [Hk _].
      rewrite (step_HealthSettles_cont w res k rest Eg Hk).
      split; [| reflexivity].
      exists [seedMessageAt res (with_pendingGet w rest)], []. cbn.
      repeat split; auto; [| constructor].
      constructor; [| constructor]. destruct res; [now left | now right].
  - destruct (pendingPost w) as [| k rest] eqn:Ep.
    + unfold step. rewrite Ep. split; [| reflexivity]. now exists seeds, timed.
    + pose proof (inv_post w Hi) as Hk. rewrite Ep in Hk.
      apply Forall_cons in Hk as [Hk _].
      rewrite (step_ChatSettles_cont w res k rest Ep Hk).
      split; [| reflexivity].
      exists seeds, (timed ++ [assistantMessageAt res (with_pendingPost w rest)]).
      cbn. repeat split; auto.
      * unfold transcript in *. cbn. now rewrite Et, app_assoc.
      * apply (Stamped_snoc _ _ (reads w)); [exact Ht | lia |].
        destruct res; [right; now left | right; now right].
Qed.

Lemma Keyed_run (clk : nat -> Z) (evs : list Event) :
  Keyed (run evs (mount clk)) /\ clock (run evs (mount clk)) = clk.
Proof.
  induction evs as [| ev evs [IH Ec]] using rev_ind; [apply Keyed_mount |].
  rewrite run_app. cbn [run fold_left].
  destruct (Keyed_step ev _ (Inv_run evs _ (Inv_mount clk)) IH) as [H E].
  split; [exact H | congruence].
Qed.

(** X17.  Each bubble is rendered under its message's id as React key.  When the
    clock readings taken for different messages differ, the keys of the
    bubbles of a session's transcript are pairwise distinct. *)
Theorem message_keys_are_distinct (clk : nat -> Z) (evs : list Event) :
  spaced clk ->
  NoDup
    (List.map (fun m => key (renderMessage m))
       (transcript (run evs (mount clk)))).
Proof.
  intros Hinc.
  destruct (Keyed_run clk evs) as [(seeds & timed & -> & Hs & Hlen & Ht) Ec].
  rewrite Ec in Ht. change (fun m => key (renderMessage m)) with id.
  pose proof (Stamped_NoDup clk _ timed Hinc Ht) as Hnd.
  destruct seeds as [| s [| s' seeds]]; [exact Hnd | | cbn in Hlen; lia].
  cbn. apply NoDup_cons. split; [| exact Hnd].
  intros Hin. apply list_elem_of_In, List.in_map_iff in Hin as (m & E & Hm).
  destruct (Stamped_members clk _ timed Ht m Hm) as (i & _ & Hst).
  apply Forall_cons in Hs as [Hseed _].
  now apply (seed_not_stamped clk i s m Hseed Hst).
Qed.

Lemma sampleCoarseClock_spaced : spaced sampleCoarseClock.
Proof.
  intros i j H. unfold sampleCoarseClock.
  assert (Nat.div2 i < Nat.div2 j); [| lia].
  rewrite !Nat.div2_div.
  apply Nat.lt_le_trans with ((i + 1 * 2) / 2).
  - rewrite Nat.div_add by discriminate. lia.
  - apply Nat.Div0.div_le_mono. lia.
Qed.

Lemma message_keys_are_distinct_witness :
  NoDup
    (List.map (fun m => key (renderMessage m))
       (transcript
          (run [HealthSettles (Resolved sampleHealth);
                Change (lit "What goes with navy blue?");
                Submit;
                ChatSettles (Resolved sampleReply)]
               (mount sampleCoarseClock)))).
Proof.
  apply (message_keys_are_distinct sampleCoarseClock).
  exact sampleCoarseClock_spaced.
Defined.

(** ** Further properties: the guard, the transcript, the console *)

(** X18.  The guard [!input.trim() || isLoading] lets a submit through exactly
    when some code unit of the input is not white space and no send is in
    flight. *)
Theorem guard_accepts_iff (r : State) :
  accepts r = true <->
  (exists c : N, In c (input r) /\ isWhiteSpace c = false) /\
  isLoading r = false.
Proof.
  rewrite accepts_spec, andb_true_iff, !negb_true_iff.
  unfold whitespaceOnly.
  assert (forallb isWhiteSpace (input r) = false <->
          exists c : N, In c (input r) /\ isWhiteSpace c = false) as H.
  { induction (input r) as [| c s IH]; cbn.
    - split; [discriminate | intros (c & [] & _)].
    - destruct (isWhiteSpace c) eqn:E; cbn.
      + rewrite IH. split.
        * intros (x & Hx & Hw). exists x. auto.
        * intros (x & [<- | Hx] & Hw); [congruence |]. exists x. auto.
      + split; [| reflexivity]. intros _. exists c. auto. }
  now rewrite H.
Qed.

(** X19.  A message is left out of the history exactly when the assistant wrote
    it and its content is the prefix of the connectivity notice followed by
    anything. *)
Theorem history_drops_exactly_prefixed_assistant (msg : ChatMessage) :
  keepInHistory msg = false <->
  msg_role msg = assistant /\
  exists rest : JsString, msg_content msg = troublePrefix ++ rest.
Proof.
  assert (forall s p : JsString,
            startsWith s p = true <-> exists rest, s = p ++ rest) as Hsw.
  { intros s p. revert s. induction p as [| a p IH]; intros s; cbn.
    - split; [intros _; now exists s | intros _; now destruct s].
    - destruct s as [| b s]; cbn.
      + split; [discriminate | intros (rest & [=])].
      + rewrite andb_true_iff, N.eqb_eq, IH. split.
        * intros [-> (rest & ->)]. now exists rest.
        * intros (rest & [= -> ->]). split; [reflexivity | now exists rest]. }
  unfold keepInHistory. rewrite orb_false_iff, !negb_false_iff, Hsw.
  destruct (msg_role msg); cbn; split; intros [H1 H2];
    try discriminate; auto.
Qed.

(** X20.  In a session, typing, submitting (accepted or not) and the settlement
    of a send only ever add messages at the tail of the transcript: as long
    as no pending probe settles, the transcript before any run of events is
    a prefix of the transcript after it. *)
Theorem sends_and_typing_are_append_only (w : World) (later : list Event) :
  reachable w ->
  probeSettlesIn w later = false ->
  transcript w `prefix_of` transcript (run later w).
Proof.
  intros Hr Hq. apply append_only_run; [now apply reachable_Inv | exact Hq].
Qed.

Lemma sends_and_typing_are_append_only_witness :
  transcript sampleEarlyInFlight `prefix_of`
  transcript
    (run [Submit; ChatSettles (Rejected NetworkError); Change (lit "again");
          Submit]
       sampleEarlyInFlight).
Proof.
  apply (sends_and_typing_are_append_only sampleEarlyInFlight).
  - exists sampleClock,
      [Change (lit "What goes with navy blue?"); Submit].
    reflexivity.
  - vm_compute; reflexivity.
Defined.

(** X21.  A rejected send is logged twice with the error axios rejected with:
    once by [chatApi.sendMessage] before it rethrows, once by the handler
    that catches it. *)
Theorem rejected_send_is_logged_twice (w : World) (e : AxiosError) :
  reachable w ->
  pendingPost w <> [] ->
  console (step (ChatSettles (Rejected e)) w) =
    console w ++
    [(lit "Error sending message:", e); (lit "Error sending message:", e)].
Proof.
  intros Hr Hp. pose proof (reachable_Inv w Hr) as Hi.
  destruct (pendingPost w) as [| k rest] eqn:Ep; [congruence |].
  pose proof (inv_post w Hi) as Hk. rewrite Ep in Hk.
  apply Forall_cons in Hk as [Hk _].
  rewrite (step_ChatSettles_cont w _ k rest Ep Hk). cbn.
  now rewrite <- app_assoc.
Qed.

Lemma rejected_send_is_logged_twice_witness :
  console (step (ChatSettles (Rejected (BadStatus 503))) sampleInFlight) =
    console sampleInFlight ++
    [(lit "Error sending message:", BadStatus 503);
     (lit "Error sending message:", BadStatus 503)].
Proof.
  apply (rejected_send_is_logged_twice sampleInFlight (BadStatus 503)).
  - exact sampleInFlight_reachable.
  - vm_compute. discriminate.
Defined.

(** X22.  In a session where neither the probe nor any send is rejected, nothing
    is ever written to the console. *)
Theorem console_silent_without_rejections
    (clk : nat -> Z) (evs : list Event) :
  forallb settlesWell evs = true ->
  console (run evs (mount clk)) = [].
Proof.
  induction evs as [| ev evs IH] using rev_ind; intros Hevs.
  - now destruct (mount_closed_form clk) as (k & _ & ->).
  - rewrite forallb_app in Hevs. apply andb_true_iff in Hevs as [Hevs Hev].
    cbn in Hev. rewrite andb_true_r in Hev. specialize (IH Hevs).
    rewrite run_app. cbn [run fold_left].
    set (w := run evs (mount clk)) in *.
    assert (Inv w) as Hi by apply Inv_run, Inv_mount.
    destruct ev as [v | | [h | e] | [d | e]]; try discriminate.
    + destruct (isLoading (ui w)) eqn:El.
      * now rewrite step_Change_loading.
      * now rewrite step_Change_idle.
    + destruct (accepts (ui w)) eqn:Ea.
      * now destruct (step_Submit_accepted w Ea) as (k & _ & ->).
      * now rewrite step_Submit_refused.
    + destruct (pendingGet w) as [| k rest] eqn:Eg.
      * unfold step. now rewrite Eg.
      * pose proof (inv_get w Hi) as Hk. rewrite Eg in Hk.
        apply Forall_cons in Hk as [Hk _].
        now rewrite (step_HealthSettles_cont w _ k rest Eg Hk).
    + destruct (pendingPost w) as [| k rest] eqn:Ep.
      * unfold step. now rewrite Ep.
      * pose proof (inv_post w Hi) as Hk. rewrite Ep in Hk.
        apply Forall_cons in Hk as [Hk _].
        now rewrite (step_ChatSettles_cont w _ k rest Ep Hk).
Qed.

Lemma console_silent_without_rejections_witness :
  console
    (run [HealthSettles (Resolved sampleHealth);
          Change (lit "What goes with navy blue?");
          Submit;
          ChatSettles (Resolved sampleReply)]
       (mount sampleClock)) = [].
Proof.
  apply (console_silent_without_rejections sampleClock). reflexivity.
Defined.
